(** * OptimizedWebGLRenderer: a shallow embedding of the instanced particle
    draw path of [webgl-renderer-optimized.js].

    The file follows the JavaScript source function by function:
    - JavaScript numbers are IEEE 754 binary64 values ([spec_float] at
      precision 53), so [parseColor] evaluates to the values a browser
      computes, NaN included;
    - [Float32Array] elements are binary32 values, written through
      [Math_fround] and read back through [widen];
    - strings are sequences of code units below 256;
    - the WebGL context is a command log: every call the renderer makes on
      [this.gl] or on the instancing extension appends one [GLCommand];
    - [Math.PI] is the binary64 constant; [Math.cos] and [Math.sin] have no
      binary64 definition in ECMAScript (their results are
      implementation-approximated), so the template-shape generator takes
      them as the engine's functions on Numbers;
    - a draw is checked against the storage of the buffers its enabled
      attributes read, as WebGL 1.0 does before it draws. *)

From Stdlib Require Import ZArith List String Ascii Bool Lia.
From Stdlib Require Import Floats.
From Stdlib Require Import Reals Lra.
From stdpp Require Import base list gmap.

Local Open Scope Z_scope.

(* ------------------------------------------------------------------ *)
(** * JavaScript numbers *)
(* ------------------------------------------------------------------ *)

Module JSNumber.

(** A Number is a binary64 value. *)
Definition number := spec_float.

Definition prec64 : Z := 53.
Definition emax64 : Z := 1024.

Definition NaN : number := S754_nan.
Definition Infinity : number := S754_infinity false.

(** The Number nearest to an integer (ties to even). *)
Definition of_Z (z : Z) : number := binary_normalize prec64 emax64 z 0 false.

Definition add : number -> number -> number := SFadd prec64 emax64.
Definition sub : number -> number -> number := SFsub prec64 emax64.
Definition mul : number -> number -> number := SFmul prec64 emax64.
Definition div : number -> number -> number := SFdiv prec64 emax64.
Definition neg : number -> number := SFopp.

(** [x < y], [x > y] and [x === y] on Numbers: all false on NaN. *)
Definition lt (x y : number) : bool := SFltb x y.
Definition gt (x y : number) : bool := SFltb y x.
Definition strict_eq (x y : number) : bool := SFeqb x y.

(** The Number nearest to [m * 10^e10]: how a decimal literal or the
    decimal text given to [parseFloat] is read. *)
Definition of_decimal (m : Z) (e10 : Z) : number :=
  match m with
  | Z0 => S754_zero false
  | Zpos p =>
      if 0 <=? e10 then of_Z (m * 10 ^ e10)
      else div (S754_finite false p 0)
               (S754_finite false (Z.to_pos (10 ^ (- e10))) 0)
  | Zneg p =>
      if 0 <=? e10 then of_Z (m * 10 ^ e10)
      else div (S754_finite true p 0)
               (S754_finite false (Z.to_pos (10 ^ (- e10))) 0)
  end.

End JSNumber.

Import JSNumber.

Declare Scope js_scope.
Delimit Scope js_scope with js.
Bind Scope js_scope with number.
Infix "+" := add : js_scope.
Infix "-" := sub : js_scope.
Infix "*" := mul : js_scope.
Infix "/" := div : js_scope.
Infix "<" := lt : js_scope.
Infix ">" := gt : js_scope.
Infix "===" := strict_eq (at level 70, no associativity) : js_scope.

(* ------------------------------------------------------------------ *)
(** * JavaScript strings and the built-ins [parseColor] calls *)
(* ------------------------------------------------------------------ *)

Module JSString.

(** [s.startsWith(p)] *)
Definition startsWith (s p : string) : bool := String.prefix p s.

(** [s.slice(a, b)] for [0 <= a <= b]; both ends are clamped to the
    length of [s]. *)
Definition slice (s : string) (a b : nat) : string :=
  String.substring a (b - a) s.

Definition code (c : ascii) : Z := Z.of_nat (nat_of_ascii c).

(** [\d] *)
Definition is_digit (c : ascii) : bool :=
  (48 <=? code c) && (code c <=? 57).

(** [[\d.]] *)
Definition is_digit_or_dot (c : ascii) : bool :=
  is_digit c || (code c =? 46).

(** [\s], and the white space [parseInt] and [parseFloat] skip: TAB, LF,
    VT, FF, CR, SP and NBSP are the members below 256. *)
Definition is_space (c : ascii) : bool :=
  ((9 <=? code c) && (code c <=? 13)) || (code c =? 32) || (code c =? 160).

(** The value of a digit in radixes up to 36. *)
Definition digit_value (c : ascii) : option Z :=
  let n := code c in
  if (48 <=? n) && (n <=? 57) then Some (n - 48)
  else if (97 <=? n) && (n <=? 122) then Some (n - 87)
  else if (65 <=? n) && (n <=? 90) then Some (n - 55)
  else None.

Fixpoint trimStart (s : string) : string :=
  match s with
  | String c s' => if is_space c then trimStart s' else s
  | EmptyString => s
  end.

(** The longest prefix of radix-[r] digits: its value, how many digits
    it has, and the rest of the string. *)
Fixpoint digits_from (r : Z) (acc : Z) (n : nat) (s : string) : Z * nat * string :=
  match s with
  | String c s' =>
      match digit_value c with
      | Some d => if d <? r then digits_from r (acc * r + d) (S n) s'
                  else (acc, n, s)
      | None => (acc, n, s)
      end
  | EmptyString => (acc, n, s)
  end.

Definition read_digits (r : Z) (s : string) : Z * nat * string :=
  digits_from r 0 0%nat s.

(** A leading sign: [true] for [-]. *)
Definition read_sign (s : string) : bool * string :=
  match s with
  | String "-"%char s' => (true, s')
  | String "+"%char s' => (false, s')
  | _ => (false, s)
  end.

(** [parseInt(s, radix)]; [radix = 0] stands for an omitted radix. *)
Definition parseInt (s : string) (radix : Z) : number :=
  let '(negative, s1) := read_sign (trimStart s) in
  if negb (radix =? 0) && ((radix <? 2) || (36 <? radix)) then NaN
  else
    let strip := (radix =? 0) || (radix =? 16) in
    let '(r, s2) :=
      match s1 with
      | String "0"%char (String x s') =>
          if strip && ((code x =? 120) || (code x =? 88)) then (16, s')
          else (if radix =? 0 then 10 else radix, s1)
      | _ => (if radix =? 0 then 10 else radix, s1)
      end in
    let '(v, n, _) := read_digits r s2 in
    match n with
    | O => NaN
    | _ => if negative then neg (of_Z v) else of_Z v
    end.

(** The exponent part [e±ddd] of a decimal literal, when present. *)
Definition read_exponent (s : string) : Z :=
  match s with
  | String c s' =>
      if (code c =? 101) || (code c =? 69) then
        let '(negative, s1) := read_sign s' in
        let '(v, n, _) := read_digits 10 s1 in
        match n with
        | O => 0
        | _ => if negative then - v else v
        end
      else 0
  | EmptyString => 0
  end.

(** [parseFloat(s)]: the longest prefix of the trimmed string that is a
    decimal literal, read to the nearest Number. *)
Definition parseFloat (s : string) : number :=
  let '(negative, s1) := read_sign (trimStart s) in
  let signed (x : number) := if negative then neg x else x in
  if startsWith s1 "Infinity"%string then signed Infinity
  else
    let '(vi, ni, s2) := read_digits 10 s1 in
    let '(vf, nf, s3) :=
      match s2 with
      | String "."%char s' => digits_from 10 vi 0%nat s'
      | _ => (vi, 0%nat, s2)
      end in
    match ni, nf with
    | O, O => NaN
    | _, _ => signed (of_decimal vf (read_exponent s3 - Z.of_nat nf))
    end.

End JSString.

Import JSString.

(* ------------------------------------------------------------------ *)
(** * Regular expressions: a backtracking matcher with capture groups *)
(* ------------------------------------------------------------------ *)

Module JSRegExp.

Inductive regex : Type :=
| Eps                                  (* the empty pattern *)
| Chr (c : ascii)                      (* one literal character *)
| Cls (p : ascii -> bool)              (* a character class *)
| Cat (r1 r2 : regex)                  (* r1 r2 *)
| Star (r : regex)                     (* r*, greedy *)
| Grp (n : nat) (r : regex).           (* the n-th capturing group *)

(** [r+] *)
Definition Plus (r : regex) : regex := Cat r (Star r).

(** A literal string. *)
Fixpoint Lit (s : string) : regex :=
  match s with
  | EmptyString => Eps
  | String c s' => Cat (Chr c) (Lit s')
  end.

(** The match array: entry 0 is the whole match, entry [n] the text of
    group [n]; an entry no group has set is [undefined]. *)
Definition captures := list (option string).

(** What was read between [s] and its suffix [s']. *)
Definition consumed (s s' : string) : string :=
  String.substring 0 (String.length s - String.length s') s.

(** A continuation: what to do with the rest of the string. *)
Definition cont := string -> captures -> option captures.

(** The greedy loop of [r*]: [step] matches [r] once. Another iteration
    is tried first, and only when everything after it fails does the loop
    stop here and call [k]. An iteration that reads nothing is rejected,
    as in ECMAScript, so the length of the string bounds the loop. *)
Fixpoint star_loop (step : string -> captures -> cont -> option captures)
    (k : cont) (fuel : nat) (s : string) (caps : captures) : option captures :=
  match fuel with
  | O => k s caps
  | S fuel' =>
      match step s caps
              (fun s1 c1 =>
                 if (String.length s1 <? String.length s)%nat
                 then star_loop step k fuel' s1 c1 else None) with
      | Some m => Some m
      | None => k s caps
      end
  end.

(** [rx r s caps k]: match [r] at the start of [s], then hand the rest of
    the string to [k]; when [k] fails the matcher backtracks into [r]. *)
Fixpoint rx (r : regex) (s : string) (caps : captures) (k : cont)
    {struct r} : option captures :=
  match r with
  | Eps => k s caps
  | Chr c =>
      match s with
      | String a s' => if Ascii.eqb a c then k s' caps else None
      | EmptyString => None
      end
  | Cls p =>
      match s with
      | String a s' => if p a then k s' caps else None
      | EmptyString => None
      end
  | Cat r1 r2 => rx r1 s caps (fun s1 c1 => rx r2 s1 c1 k)
  | Grp n r1 =>
      rx r1 s caps (fun s1 c1 => k s1 (<[n := Some (consumed s s1)]> c1))
  | Star r1 => star_loop (rx r1) k (String.length s) s caps
  end.

(** Match at the start of [s] only. *)
Definition match_here (r : regex) (groups : nat) (s : string) : option captures :=
  rx r s (replicate (S groups) None)
     (fun s' caps => Some (<[0%nat := Some (consumed s s')]> caps)).

(** [s.match(r)] for a pattern without the global flag: the first start
    position, from the left, at which the pattern matches. *)
Fixpoint exec (r : regex) (groups : nat) (s : string) : option captures :=
  match match_here r groups s with
  | Some m => Some m
  | None =>
      match s with
      | String _ s' => exec r groups s'
      | EmptyString => None
      end
  end.

(** [m[i]] converted to a string, as a built-in taking a string does. *)
Definition group (m : captures) (i : nat) : string :=
  match m !! i with
  | Some (Some s) => s
  | _ => "undefined"%string
  end.

End JSRegExp.

Import JSRegExp.

(* ------------------------------------------------------------------ *)
(** * parseColor *)
(* ------------------------------------------------------------------ *)

(** [/hsl\(([\d.]+)\s*,\s*(\d+)%\s*,\s*(\d+)%\)/] *)
Definition hsl_pattern : regex :=
  Cat (Lit "hsl(")
 (Cat (Grp 1 (Plus (Cls is_digit_or_dot)))
 (Cat (Star (Cls is_space)) (Cat (Chr ",") (Cat (Star (Cls is_space))
 (Cat (Grp 2 (Plus (Cls is_digit)))
 (Cat (Chr "%")
 (Cat (Star (Cls is_space)) (Cat (Chr ",") (Cat (Star (Cls is_space))
 (Cat (Grp 3 (Plus (Cls is_digit)))
      (Lit "%)"))))))))))).

(** The arrow function [hue2rgb] inside [parseColor]. *)
Definition hue2rgb (p q t : number) : number :=
  let t := if (t < of_Z 0)%js then (t + of_Z 1)%js else t in
  let t := if (t > of_Z 1)%js then (t - of_Z 1)%js else t in
  if (t < of_Z 1 / of_Z 6)%js then (p + (q - p) * of_Z 6 * t)%js
  else if (t < of_Z 1 / of_Z 2)%js then q
  else if (t < of_Z 2 / of_Z 3)%js
       then (p + (q - p) * (of_Z 2 / of_Z 3 - t) * of_Z 6)%js
  else p.

(** The body of the [if (match)] block: from the three captured texts to
    the RGBA array. *)
Definition hsl_to_rgba (m : captures) : list number :=
  let h := (parseFloat (group m 1) / of_Z 360)%js in
  let s := (parseInt (group m 2) 0 / of_Z 100)%js in
  let l := (parseInt (group m 3) 0 / of_Z 100)%js in
  if (s === of_Z 0)%js then [l; l; l; of_Z 1]
  else
    let q := if (l < of_decimal 5 (-1))%js
             then (l * (of_Z 1 + s))%js else (l + s - l * s)%js in
    let p := (of_Z 2 * l - q)%js in
    [ hue2rgb p q (h + of_Z 1 / of_Z 3)%js;
      hue2rgb p q h;
      hue2rgb p q (h - of_Z 1 / of_Z 3)%js;
      of_Z 1 ].

(** The hex branch. *)
Definition hex_to_rgba (color : string) : list number :=
  [ (parseInt (slice color 1 3) 16 / of_Z 255)%js;
    (parseInt (slice color 3 5) 16 / of_Z 255)%js;
    (parseInt (slice color 5 7) 16 / of_Z 255)%js;
    of_Z 1 ].

Definition parseColor (color : string) : list number :=
  match (if startsWith color "hsl" then exec hsl_pattern 3 color else None) with
  | Some m => hsl_to_rgba m
  | None =>
      if startsWith color "#" then hex_to_rgba color
      else [of_Z 0; of_Z 0; of_Z 0; of_Z 1]
  end.

(* ------------------------------------------------------------------ *)
(** * Float32Array *)
(* ------------------------------------------------------------------ *)

Module Float32Array.

(** An element is a binary32 value. *)
Definition f32 := spec_float.

Definition prec32 : Z := 24.
Definition emax32 : Z := 128.

(** Storing a Number rounds it to the nearest binary32 value. *)
Definition Math_fround (x : number) : f32 :=
  match x with
  | S754_finite s m e => binary_round prec32 emax32 s m e
  | _ => x
  end.

(** Reading an element gives the same value as a Number. *)
Definition widen (v : f32) : number :=
  match v with
  | S754_finite s m e => binary_round prec64 emax64 s m e
  | _ => v
  end.

Abbreviation t := (list f32).

(** [new Float32Array(n)] *)
Definition make (n : nat) : t := replicate n (S754_zero false).

(** [new Float32Array([x0, x1, ...])] *)
Definition of_array (xs : list number) : t := map Math_fround xs.

(** [a[i] = x]; a write past the end is ignored. *)
Definition set (a : t) (i : nat) (x : number) : t := <[i := Math_fround x]> a.

(** [a[i]]; past the end the read is [undefined], which every use below
    converts to NaN. *)
Definition get (a : t) (i : nat) : number :=
  match a !! i with
  | Some v => widen v
  | None => NaN
  end.

End Float32Array.

(** [arr[i]] on a plain array of Numbers, [undefined] read as NaN. *)
Definition array_get (a : list number) (i : nat) : number :=
  match a !! i with
  | Some x => x
  | None => NaN
  end.

(* ------------------------------------------------------------------ *)
(** * The WebGL calls of [drawParticles], as a command log *)
(* ------------------------------------------------------------------ *)

(** Buffers, programs and uniform locations are opaque objects. *)
Definition handle := nat.

Inductive GLenum : Type :=
| ARRAY_BUFFER | STATIC_DRAW | DYNAMIC_DRAW | FLOAT | TRIANGLE_FAN.

Inductive GLCommand : Type :=
| useProgram (program : handle)
| uniform2f (location : handle) (x y : number)
| bindBuffer (target : GLenum) (buffer : handle)
| bufferData (target : GLenum) (data : Float32Array.t) (usage : GLenum)
| enableVertexAttribArray (index : Z)
| disableVertexAttribArray (index : Z)
| vertexAttribPointer (index : Z) (size : Z) (type : GLenum)
                      (normalized : bool) (stride offset : Z)
| vertexAttribDivisorANGLE (index : Z) (divisor : Z)
| drawArraysInstancedANGLE (mode : GLenum) (first count primcount : Z)
| drawArrays (mode : GLenum) (first count : Z).

(** A draw command is one of the two calls that rasterize. *)
Definition is_draw (c : GLCommand) : bool :=
  match c with
  | drawArraysInstancedANGLE _ _ _ _ | drawArrays _ _ _ => true
  | _ => false
  end.

(* ------------------------------------------------------------------ *)
(** * The renderer object *)
(* ------------------------------------------------------------------ *)

Record Particle : Type := {
  x : number;
  y : number;
  size : number;
  color : string
}.

Record Canvas : Type := { width : number; height : number }.

Record AttribLocations : Type := {
  vertexPosition : Z;
  instancePosition : Z;
  instanceSize : Z;
  instanceColor : Z
}.

Record ProgramInfo : Type := {
  program : handle;
  attribLocations : AttribLocations;
  resolution : handle
}.

(** The fields of [this] that [drawParticles] reads. [gl] is false when no
    WebGL context could be obtained, [programInfo] is [None] when the shader
    program did not link, and [instancedArraysExt] tells whether
    [getExtension('ANGLE_instanced_arrays')] answered with an object. *)
Record Renderer : Type := {
  canvas : Canvas;
  gl : bool;
  instancedArraysExt : bool;
  programInfo : option ProgramInfo;
  circleBuffer : handle;
  circleVertexCount : Z;
  instancePositionBuffer : handle;
  instanceSizeBuffer : handle;
  instanceColorBuffer : handle
}.

(** [for (let i = 0; i < n; i++) body], threading the loop's state. *)
Definition for_loop {St : Type} (n : nat) (body : nat -> St -> St) (st : St) : St :=
  fold_left (fun st i => body i st) (seq 0 n) st.

(* ------------------------------------------------------------------ *)
(** * drawParticles *)
(* ------------------------------------------------------------------ *)

(** The three instance arrays of one call. *)
Record InstanceArrays : Type := {
  positions : Float32Array.t;
  sizes : Float32Array.t;
  colors : Float32Array.t
}.

(** One iteration of the extraction loop (source lines 211-222). *)
Definition extract_particle (particles : list Particle) (i : nat)
    (a : InstanceArrays) : InstanceArrays :=
  match particles !! i with
  | Some particle =>
      let positions := Float32Array.set (positions a) (i * 2) (x particle) in
      let positions := Float32Array.set positions (i * 2 + 1) (y particle) in
      let sizes := Float32Array.set (sizes a) i (size particle) in
      let color := parseColor (color particle) in
      let colors := Float32Array.set (colors a) (i * 4) (array_get color 0) in
      let colors := Float32Array.set colors (i * 4 + 1) (array_get color 1) in
      let colors := Float32Array.set colors (i * 4 + 2) (array_get color 2) in
      let colors := Float32Array.set colors (i * 4 + 3) (array_get color 3) in
      {| positions := positions; sizes := sizes; colors := colors |}
  | None => a   (* not reached: i < particles.length *)
  end.

(** Source lines 207-222: fresh arrays, then the extraction loop. *)
Definition extract (particles : list Particle) : InstanceArrays :=
  let n := length particles in
  for_loop n (extract_particle particles)
    {| positions := Float32Array.make (n * 2);
       sizes := Float32Array.make n;
       colors := Float32Array.make (n * 4) |}.

(** Source lines 225-283: program, resolution uniform, the template
    stream and the three instance streams. *)
Definition setup (r : Renderer) (pi : ProgramInfo) (a : InstanceArrays)
    : list GLCommand :=
  let loc := attribLocations pi in
  [ useProgram (program pi);
    uniform2f (resolution pi) (width (canvas r)) (height (canvas r));
    bindBuffer ARRAY_BUFFER (circleBuffer r);
    enableVertexAttribArray (vertexPosition loc);
    vertexAttribPointer (vertexPosition loc) 2 FLOAT false 0 0;
    bindBuffer ARRAY_BUFFER (instancePositionBuffer r);
    bufferData ARRAY_BUFFER (positions a) DYNAMIC_DRAW;
    enableVertexAttribArray (instancePosition loc);
    vertexAttribPointer (instancePosition loc) 2 FLOAT false 0 0;
    bindBuffer ARRAY_BUFFER (instanceSizeBuffer r);
    bufferData ARRAY_BUFFER (sizes a) DYNAMIC_DRAW;
    enableVertexAttribArray (instanceSize loc);
    vertexAttribPointer (instanceSize loc) 1 FLOAT false 0 0;
    bindBuffer ARRAY_BUFFER (instanceColorBuffer r);
    bufferData ARRAY_BUFFER (colors a) DYNAMIC_DRAW;
    enableVertexAttribArray (instanceColor loc);
    vertexAttribPointer (instanceColor loc) 4 FLOAT false 0 0 ].

(** Source lines 286-302: the branch taken when the extension is there. *)
Definition draw_instanced (r : Renderer) (pi : ProgramInfo) (n : nat)
    : list GLCommand :=
  let loc := attribLocations pi in
  [ vertexAttribDivisorANGLE (instancePosition loc) 1;
    vertexAttribDivisorANGLE (instanceSize loc) 1;
    vertexAttribDivisorANGLE (instanceColor loc) 1;
    drawArraysInstancedANGLE TRIANGLE_FAN 0 (circleVertexCount r) (Z.of_nat n);
    vertexAttribDivisorANGLE (instancePosition loc) 0;
    vertexAttribDivisorANGLE (instanceSize loc) 0;
    vertexAttribDivisorANGLE (instanceColor loc) 0 ].

(** One iteration of the fallback loop (source lines 307-320). *)
Definition draw_one (r : Renderer) (a : InstanceArrays) (i : nat)
    (log : list GLCommand) : list GLCommand :=
  log ++
  [ bindBuffer ARRAY_BUFFER (instancePositionBuffer r);
    bufferData ARRAY_BUFFER
      (Float32Array.of_array
         [ Float32Array.get (positions a) (i * 2);
           Float32Array.get (positions a) (i * 2 + 1) ]) DYNAMIC_DRAW;
    bindBuffer ARRAY_BUFFER (instanceSizeBuffer r);
    bufferData ARRAY_BUFFER
      (Float32Array.of_array [ Float32Array.get (sizes a) i ]) DYNAMIC_DRAW;
    bindBuffer ARRAY_BUFFER (instanceColorBuffer r);
    bufferData ARRAY_BUFFER
      (Float32Array.of_array
         [ Float32Array.get (colors a) (i * 4);
           Float32Array.get (colors a) (i * 4 + 1);
           Float32Array.get (colors a) (i * 4 + 2);
           Float32Array.get (colors a) (i * 4 + 3) ]) DYNAMIC_DRAW;
    drawArrays TRIANGLE_FAN 0 (circleVertexCount r) ].

(** Source lines 306-321: the fallback loop. *)
Definition draw_fallback (r : Renderer) (a : InstanceArrays) (n : nat)
    : list GLCommand :=
  for_loop n (draw_one r a) [].

(** Source lines 325-328. *)
Definition cleanup (pi : ProgramInfo) : list GLCommand :=
  let loc := attribLocations pi in
  [ disableVertexAttribArray (vertexPosition loc);
    disableVertexAttribArray (instancePosition loc);
    disableVertexAttribArray (instanceSize loc);
    disableVertexAttribArray (instanceColor loc) ].

(** How a call ends: it returns, or a TypeError escapes it. *)
Inductive completion : Type := Returned | TypeError.

(** [drawParticles(particles)]; [None] stands for a [null] or [undefined]
    argument. The result is the list of WebGL commands issued, in order,
    and how the call ended. On a renderer without a context or without a
    linked program the first statement after the extraction loop,
    [this.gl.useProgram(this.programInfo.program)], throws before any
    command is issued. *)
Definition drawParticles (r : Renderer) (particles : option (list Particle))
    : list GLCommand * completion :=
  match particles with
  | None => ([], Returned)
  | Some [] => ([], Returned)
  | Some ps =>
      let a := extract ps in
      match gl r, programInfo r with
      | true, Some pi =>
          (setup r pi a
             ++ (if instancedArraysExt r
                 then draw_instanced r pi (length ps)
                 else draw_fallback r a (length ps))
             ++ cleanup pi,
           Returned)
      | _, _ => ([], TypeError)
      end
  end.

(** The draw commands among the commands of a call. *)
Definition draw_commands (log : list GLCommand) : list GLCommand :=
  List.filter is_draw log.

(* ------------------------------------------------------------------ *)
(** * The rendering surface: what the commands of a log do *)
(* ------------------------------------------------------------------ *)

(** The part of the WebGL state the commands above read and write. *)
Record GLBindings : Type := {
  array_buffer_binding : option handle;
  buffer_store : gmap handle Float32Array.t;
  current_program : option handle;
  uniform2 : gmap handle (number * number);
  attrib_enabled : gmap Z bool;
  attrib_pointer : gmap Z (option handle * Z);
  attrib_divisor : gmap Z Z
}.

(** The state of the surface: the bindings, and every draw executed so far
    together with the bindings it was executed under, oldest first. *)
Record GLState : Type := {
  bindings : GLBindings;
  drawn : list (GLCommand * GLBindings)
}.

Definition gl_bind (b : GLBindings) (c : GLCommand) : GLBindings :=
  match c with
  | useProgram p =>
      {| array_buffer_binding := array_buffer_binding b;
         buffer_store := buffer_store b;
         current_program := Some p;
         uniform2 := uniform2 b;
         attrib_enabled := attrib_enabled b;
         attrib_pointer := attrib_pointer b;
         attrib_divisor := attrib_divisor b |}
  | uniform2f loc vx vy =>
      {| array_buffer_binding := array_buffer_binding b;
         buffer_store := buffer_store b;
         current_program := current_program b;
         uniform2 := <[loc := (vx, vy)]> (uniform2 b);
         attrib_enabled := attrib_enabled b;
         attrib_pointer := attrib_pointer b;
         attrib_divisor := attrib_divisor b |}
  | bindBuffer _ buf =>
      {| array_buffer_binding := Some buf;
         buffer_store := buffer_store b;
         current_program := current_program b;
         uniform2 := uniform2 b;
         attrib_enabled := attrib_enabled b;
         attrib_pointer := attrib_pointer b;
         attrib_divisor := attrib_divisor b |}
  | bufferData _ data _ =>
      match array_buffer_binding b with
      | Some buf =>
          {| array_buffer_binding := array_buffer_binding b;
             buffer_store := <[buf := data]> (buffer_store b);
             current_program := current_program b;
             uniform2 := uniform2 b;
             attrib_enabled := attrib_enabled b;
             attrib_pointer := attrib_pointer b;
             attrib_divisor := attrib_divisor b |}
      | None => b
      end
  | enableVertexAttribArray i =>
      {| array_buffer_binding := array_buffer_binding b;
         buffer_store := buffer_store b;
         current_program := current_program b;
         uniform2 := uniform2 b;
         attrib_enabled := <[i := true]> (attrib_enabled b);
         attrib_pointer := attrib_pointer b;
         attrib_divisor := attrib_divisor b |}
  | disableVertexAttribArray i =>
      {| array_buffer_binding := array_buffer_binding b;
         buffer_store := buffer_store b;
         current_program := current_program b;
         uniform2 := uniform2 b;
         attrib_enabled := <[i := false]> (attrib_enabled b);
         attrib_pointer := attrib_pointer b;
         attrib_divisor := attrib_divisor b |}
  | vertexAttribPointer i n _ _ _ _ =>
      {| array_buffer_binding := array_buffer_binding b;
         buffer_store := buffer_store b;
         current_program := current_program b;
         uniform2 := uniform2 b;
         attrib_enabled := attrib_enabled b;
         attrib_pointer := <[i := (array_buffer_binding b, n)]> (attrib_pointer b);
         attrib_divisor := attrib_divisor b |}
  | vertexAttribDivisorANGLE i d =>
      {| array_buffer_binding := array_buffer_binding b;
         buffer_store := buffer_store b;
         current_program := current_program b;
         uniform2 := uniform2 b;
         attrib_enabled := attrib_enabled b;
         attrib_pointer := attrib_pointer b;
         attrib_divisor := <[i := d]> (attrib_divisor b) |}
  | drawArraysInstancedANGLE _ _ _ _ | drawArrays _ _ _ => b
  end.

Definition gl_step (st : GLState) (c : GLCommand) : GLState :=
  {| bindings := gl_bind (bindings st) c;
     drawn := if is_draw c then drawn st ++ [(c, bindings st)] else drawn st |}.

Definition gl_run (st : GLState) (log : list GLCommand) : GLState :=
  fold_left gl_step log st.

(** The instance step rate of an attribute; 0, per vertex, is the default. *)
Definition divisor (st : GLState) (i : Z) : Z :=
  default 0 (attrib_divisor (bindings st) !! i).

(** The contents of a buffer object under given bindings. *)
Definition stored (b : GLBindings) (buf : handle) : option Float32Array.t :=
  buffer_store b !! buf.

(** The attributes the vertex shader declares and reads (source lines
    38-58): the program consumes all four. *)
Definition attributes (pi : ProgramInfo) : list Z :=
  let loc := attribLocations pi in
  [ vertexPosition loc; instancePosition loc; instanceSize loc;
    instanceColor loc ].

(** How many elements a draw reads from an attribute array of divisor [d]:
    one per vertex when [d] is 0, one per [d] instances otherwise;
    [drawArrays] draws a single instance. *)
Definition elements_read (c : GLCommand) (d : Z) : Z :=
  match c with
  | drawArrays _ first count => if d =? 0 then first + count else 1
  | drawArraysInstancedANGLE _ first count primcount =>
      if d =? 0 then first + count else (primcount + d - 1) / d
  | _ => 0
  end.

(** WebGL 1.0, section 6.6 (Enabled Vertex Attributes and Range Checking):
    an attribute enabled as an array needs a buffer bound to it, and every
    element the draw reads must lie within the storage of that buffer;
    otherwise the draw generates INVALID_OPERATION and no geometry is
    drawn. A buffer that never received data has no storage. All pointers
    of the renderer are tightly packed floats from offset 0. *)
Definition attribute_in_range (b : GLBindings) (c : GLCommand) (i : Z) : bool :=
  match attrib_enabled b !! i with
  | Some true =>
      match attrib_pointer b !! i with
      | Some (Some buf, n) =>
          elements_read c (default 0 (attrib_divisor b !! i)) * n
          <=? Z.of_nat (length (default [] (buffer_store b !! buf)))
      | _ => false
      end
  | _ => true
  end.

(** A draw passes the check when every attribute of the program does. *)
Definition draw_in_range (pi : ProgramInfo) (d : GLCommand * GLBindings) : bool :=
  forallb (attribute_in_range (snd d) (fst d)) (attributes pi).

(** The draws that leave geometry on the surface: the others are rejected. *)
Definition rendered (pi : ProgramInfo) (st : GLState)
    : list (GLCommand * GLBindings) :=
  List.filter (draw_in_range pi) (drawn st).

(* ------------------------------------------------------------------ *)
(** * The template shape of initBuffers *)
(* ------------------------------------------------------------------ *)


Module Template.

(** [Math.PI], the Number nearest to pi: 0x400921FB54442D18, printed
    3.141592653589793. *)
Definition Math_PI : number := S754_finite false 7074237752028440 (-51).

Section Engine.

(** [Math.cos] and [Math.sin]. ECMAScript leaves their results
    implementation-approximated, so they are whatever functions on Numbers
    the engine provides. *)
Variables Math_cos Math_sin : number -> number.

(** [theta = (i / segments) * Math.PI * 2], in Number arithmetic. *)
Definition theta (segments i : nat) : number :=
  (of_Z (Z.of_nat i) / of_Z (Z.of_nat segments) * Math_PI * of_Z 2)%js.

(** [vertices.push(Math.cos(theta), Math.sin(theta))] *)
Definition push_ring_vertex (segments i : nat) (vertices : list number)
    : list number :=
  vertices ++ [Math_cos (theta segments i); Math_sin (theta segments i)].

(** Source lines 125-134, for a given segment count: the center, then
    [for (let i = 0; i <= segments; i++)]. *)
Definition circle_vertices (segments : nat) : list number :=
  for_loop (S segments) (push_ring_vertex segments) [of_Z 0; of_Z 0].

End Engine.


(** [const segments = 12] and [this.circleVertexCount = segments + 2]. *)
Definition segments : nat := 12.
Definition circleVertexCount : nat := segments + 2.


End Template.

(* ------------------------------------------------------------------ *)
(** * The specification's side: colour formats and the HSL conversion *)
(* ------------------------------------------------------------------ *)

Module Spec.

Fixpoint all_chars (p : ascii -> bool) (s : string) : bool :=
  match s with
  | EmptyString => true
  | String c s' => p c && all_chars p s'
  end.

Definition is_hex_digit (c : ascii) : bool :=
  match digit_value c with
  | Some d => d <? 16
  | None => false
  end.

(** [#RRGGBB]: a hash sign and six hexadecimal digits. *)
Definition hex_form (s : string) : bool :=
  match s with
  | String "#"%char t => (String.length t =? 6)%nat && all_chars is_hex_digit t
  | _ => false
  end.

(** The value of a pair of hexadecimal digits. *)
Definition hex_pair (c1 c2 : ascii) : Z :=
  16 * default 0 (digit_value c1) + default 0 (digit_value c2).

Definition nonempty (s : string) : bool :=
  match s with EmptyString => false | _ => true end.

(** The text [hsl(H, S%, L%)]: [H] of digits and dots, [S] and [L] of
    digits, white space allowed on both sides of each comma. *)
Definition hsl_text (H w1 w2 S w3 w4 L : string) : string :=
  ("hsl(" ++ H ++ w1 ++ "," ++ w2 ++ S ++ "%" ++ w3 ++ "," ++ w4 ++ L ++ "%)")%string.

Definition hsl_parts (H w1 w2 S w3 w4 L : string) : bool :=
  nonempty H && all_chars is_digit_or_dot H
  && nonempty S && all_chars is_digit S
  && nonempty L && all_chars is_digit L
  && all_chars is_space w1 && all_chars is_space w2
  && all_chars is_space w3 && all_chars is_space w4.

Definition hsl_form (s : string) : Prop :=
  exists H w1 w2 S w3 w4 L,
    hsl_parts H w1 w2 S w3 w4 L = true /\ s = hsl_text H w1 w2 S w3 w4 L.

(** The six-way hue helper: the position [t] on the colour wheel is
    brought back into one turn, then the wheel is cut at 1/6, 1/2 and
    2/3: a rising ramp from [p] to [q], the plateau [q], a falling ramp
    back to [p], and the floor [p]. *)
Definition hue_channel (p q t : number) : number :=
  let t := if (t < of_Z 0)%js then (t + of_Z 1)%js else t in
  let t := if (t > of_Z 1)%js then (t - of_Z 1)%js else t in
  if (t < of_Z 1 / of_Z 6)%js then (p + (q - p) * of_Z 6 * t)%js
  else if (t < of_Z 1 / of_Z 2)%js then q
  else if (t < of_Z 2 / of_Z 3)%js
       then (p + (q - p) * (of_Z 2 / of_Z 3 - t) * of_Z 6)%js
  else p.



Definition black : list number := [of_Z 0; of_Z 0; of_Z 0; of_Z 1].

End Spec.

(* ------------------------------------------------------------------ *)
(** * The specification's side: instance arrays and per-particle draws *)
(* ------------------------------------------------------------------ *)

(** Interleaved (x, y) of the particles, in input order. *)
Definition xy_of (ps : list Particle) : Float32Array.t :=
  flat_map (fun p => [Float32Array.Math_fround (x p);
                      Float32Array.Math_fround (y p)]) ps.

(** One size per particle. *)
Definition sizes_of (ps : list Particle) : Float32Array.t :=
  map (fun p => Float32Array.Math_fround (size p)) ps.

(** Interleaved RGBA of the particles' parsed colours. *)
Definition rgba_of (ps : list Particle) : Float32Array.t :=
  flat_map (fun p => map Float32Array.Math_fround (parseColor (color p))) ps.

(** What the fallback path is to do for one particle: upload its own
    position, size and colour, then draw the template once. *)
Definition draw_particle (r : Renderer) (p : Particle) : list GLCommand :=
  [ bindBuffer ARRAY_BUFFER (instancePositionBuffer r);
    bufferData ARRAY_BUFFER (xy_of [p]) DYNAMIC_DRAW;
    bindBuffer ARRAY_BUFFER (instanceSizeBuffer r);
    bufferData ARRAY_BUFFER (sizes_of [p]) DYNAMIC_DRAW;
    bindBuffer ARRAY_BUFFER (instanceColorBuffer r);
    bufferData ARRAY_BUFFER (rgba_of [p]) DYNAMIC_DRAW;
    drawArrays TRIANGLE_FAN 0 (circleVertexCount r) ].

(** The data of every [bufferData] of a log, in order. *)
Definition uploads (log : list GLCommand) : list Float32Array.t :=
  omap (fun c => match c with
                 | bufferData _ data _ => Some data
                 | _ => None
                 end) log.

(** Elements [k*i .. k*i + k - 1] of a flat array of [k]-component
    elements. *)
Definition element (k : nat) (a : Float32Array.t) (i : nat) : Float32Array.t :=
  take k (drop (k * i) a).

(** The bindings after the commands of a log. *)
Definition gl_bind_all (b : GLBindings) (log : list GLCommand) : GLBindings :=
  fold_left gl_bind log b.

(** The next character, if any, is outside the class. *)
Definition stops (p : ascii -> bool) (s : string) : bool :=
  match s with
  | EmptyString => true
  | String c _ => negb (p c)
  end.

Definition hex_chars : list ascii :=
  list_ascii_of_string "0123456789abcdefABCDEF".

(* ------------------------------------------------------------------ *)
(** * A concrete renderer and a concrete frame *)
(* ------------------------------------------------------------------ *)

(** A 100 x 100 canvas, a linked program with attribute locations 0..3,
    four distinct buffers and the 14-vertex template. *)
Definition demo_program : ProgramInfo :=
  {| program := 1%nat;
     attribLocations := {| vertexPosition := 0; instancePosition := 1;
                           instanceSize := 2; instanceColor := 3 |};
     resolution := 2%nat |}.

Definition demo_renderer (instancing : bool) : Renderer :=
  {| canvas := {| width := of_Z 100; height := of_Z 100 |};
     gl := true;
     instancedArraysExt := instancing;
     programInfo := Some demo_program;
     circleBuffer := 10%nat;
     circleVertexCount := Z.of_nat Template.circleVertexCount;
     instancePositionBuffer := 11%nat;
     instanceSizeBuffer := 12%nat;
     instanceColorBuffer := 13%nat |}.

Definition demo_particles : list Particle :=
  [ {| x := of_Z 10; y := of_Z 10; size := of_Z 5; color := "#ffffff" |};
    {| x := of_Z 20; y := of_Z 20; size := of_Z 5; color := "#ffffff" |} ].

(** Two overlapping particles: a red one, then a blue one two pixels to
    its right. *)
Definition demo_overlapping : list Particle :=
  [ {| x := of_Z 10; y := of_Z 10; size := of_Z 5; color := "#ff0000" |};
    {| x := of_Z 12; y := of_Z 10; size := of_Z 5; color := "#0000ff" |} ].

(** What [initBuffers] does on the surface (source lines 121-135): the
    template is uploaded, as a [Float32Array], to the circle buffer. *)
Definition initBuffers (Math_cos Math_sin : number -> number) (r : Renderer)
    : list GLCommand :=
  [ bindBuffer ARRAY_BUFFER (circleBuffer r);
    bufferData ARRAY_BUFFER
      (Float32Array.of_array
         (Template.circle_vertices Math_cos Math_sin Template.segments))
      STATIC_DRAW ].

(** A surface on which nothing has been bound or drawn yet. *)
Definition fresh_surface : GLState :=
  {| bindings := {| array_buffer_binding := None;
                    buffer_store := ∅;
                    current_program := None;
                    uniform2 := ∅;
                    attrib_enabled := ∅;
                    attrib_pointer := ∅;
                    attrib_divisor := ∅ |};
     drawn := [] |}.

(* ------------------------------------------------------------------ *)
(** * The simulation around the renderer: Particle.update and
      WebGLParticleRendererOptimized.update *)
(* ------------------------------------------------------------------ *)

(** A [Particle] object with the fields [drawParticles] does not read:
    its velocity and the canvas it bounces in. *)
Record MovingParticle : Type := {
  shown : Particle;
  speedX : number;
  speedY : number;
  bounds : Canvas
}.

(** [Particle.update()]: move by the velocity, then reverse a velocity
    component when the new coordinate is outside the canvas. *)
Definition Particle_update (p : MovingParticle) : MovingParticle :=
  let x1 := (x (shown p) + speedX p)%js in
  let y1 := (y (shown p) + speedY p)%js in
  let sx :=
    if (x1 < of_Z 0)%js || (x1 > width (bounds p))%js
    then (speedX p * neg (of_Z 1))%js else speedX p in
  let sy :=
    if (y1 < of_Z 0)%js || (y1 > height (bounds p))%js
    then (speedY p * neg (of_Z 1))%js else speedY p in
  {| shown := {| x := x1; y := y1;
                 size := size (shown p); color := color (shown p) |};
     speedX := sx; speedY := sy; bounds := bounds p |}.

(** [WebGLParticleRendererOptimized.update()] *)
Definition update_all (ps : list MovingParticle) : list MovingParticle :=
  map Particle_update ps.

(** A particle ten pixels left of a 100 x 100 canvas, moving left. *)
Definition demo_stray : MovingParticle :=
  {| shown := {| x := of_Z (-10); y := of_Z 50; size := of_Z 5;
                 color := "#ffffff" |};
     speedX := of_Z (-1); speedY := of_Z 1;
     bounds := {| width := of_Z 100; height := of_Z 100 |} |}.

(* ================================================================== *)
(** * Proofs *)
(* ================================================================== *)

Lemma digits2_pos_size (p : positive) : digits2_pos p = Pos.size p.
Proof. induction p; simpl; congruence. Qed.

Lemma Zdigits2_log2 (m : Z) : 0 < m -> Zdigits2 m = Z.log2 m + 1.
Proof.
  destruct m as [|p|p]; try lia. intros _. simpl.
  rewrite digits2_pos_size. destruct p; simpl; lia.
Qed.

Lemma iter_pos_nat {A} (f : A -> A) (p : positive) (a : A) :
  SpecFloat.iter_pos f p a = Nat.iter (Pos.to_nat p) f a.
Proof.
  revert a. induction p as [p IH|p IH|]; intros a; cbn [SpecFloat.iter_pos].
  - rewrite !IH, <- Nat.iter_succ_r, <- Nat.iter_add. f_equal. lia.
  - rewrite !IH, <- Nat.iter_add. f_equal. lia.
  - reflexivity.
Qed.

Lemma shr_1_m (mrs : shr_record) :
  0 <= shr_m mrs -> shr_m (shr_1 mrs) = shr_m mrs / 2 /\ 0 <= shr_m (shr_1 mrs).
Proof.
  destruct mrs as [m r s]. cbn [shr_m]. intros H.
  destruct m as [|[p|p|]|p]; cbn [shr_1 shr_m]; try lia.
  all: split; [|lia].
  - reflexivity.
  - apply Z.div_unique with 1; lia.
  - apply Z.div_unique with 0; lia.
  - reflexivity.
Qed.

Lemma shr_iter_m (n : nat) (mrs : shr_record) :
  0 <= shr_m mrs ->
  shr_m (Nat.iter n shr_1 mrs) = shr_m mrs / 2 ^ Z.of_nat n
  /\ 0 <= shr_m (Nat.iter n shr_1 mrs).
Proof.
  intros H. induction n as [|n [IH1 IH2]].
  - simpl. rewrite Z.div_1_r. auto.
  - rewrite Nat.iter_succ. destruct (shr_1_m _ IH2) as [E1 E2]. split; [|exact E2].
    rewrite E1, IH1. rewrite Nat2Z.inj_succ, Z.pow_succ_r by lia.
    rewrite Z.div_div by lia. f_equal. lia.
Qed.

Lemma Zdigits2_nonneg (m : Z) : 0 <= Zdigits2 m.
Proof. destruct m; simpl; lia. Qed.

Lemma Zdigits2_pos (m : Z) : 0 < m -> 0 < Zdigits2 m.
Proof. destruct m; simpl; lia. Qed.

Lemma Zdigits2_div_pow_pos (m n : Z) :
  0 < m -> 0 <= n -> 0 < m / 2 ^ n -> Zdigits2 (m / 2 ^ n) = Zdigits2 m - n.
Proof.
  intros Hm Hn Hq.
  rewrite !Zdigits2_log2 by lia.
  rewrite <- Z.shiftr_div_pow2 by lia.
  rewrite Z.log2_shiftr by lia.
  destruct (Z.le_gt_cases n (Z.log2 m)) as [H|H]; [lia|].
  exfalso. destruct (Z.log2_spec m Hm) as [_ Hlt].
  assert (m < 2 ^ n).
  { eapply Z.lt_le_trans; [exact Hlt|]. apply Z.pow_le_mono_r; lia. }
  rewrite Z.div_small in Hq by lia. lia.
Qed.

Lemma Zdigits2_div_pow_zero (m n : Z) :
  0 < m -> 0 <= n -> m / 2 ^ n = 0 -> Zdigits2 m <= n.
Proof.
  intros Hm Hn Hq. rewrite Zdigits2_log2 by lia.
  destruct (Z.le_gt_cases (Z.log2 m + 1) n) as [H|H]; [lia|]. exfalso.
  destruct (Z.log2_spec m Hm) as [Hle _].
  assert (2 ^ n <= m).
  { eapply Z.le_trans; [|exact Hle]. apply Z.pow_le_mono_r; lia. }
  assert (0 < 2 ^ n) by (apply Z.pow_pos_nonneg; lia).
  assert (1 <= m / 2 ^ n).
  { apply Z.div_le_lower_bound; lia. }
  lia.
Qed.

Lemma Zdigits2_succ (m : Z) :
  0 < m ->
  Zdigits2 (m + 1) = Zdigits2 m
  \/ (Zdigits2 (m + 1) = Zdigits2 m + 1 /\ m + 1 = 2 ^ Zdigits2 m).
Proof.
  intros Hm. rewrite !Zdigits2_log2 by lia.
  destruct (Z.log2_succ_or m) as [H|H].
  - right. fold (Z.succ m). rewrite H. split; [lia|].
    pose proof H as H'. apply Z.log2_eq_succ_iff_pow2 in H'; [|lia].
    destruct H' as [b Hb].
    assert (0 <= b).
    { destruct (Z.le_gt_cases 0 b); [lia|]. rewrite Z.pow_neg_r in Hb by lia. lia. }
    rewrite Hb. f_equal.
    assert (Z.log2 (Z.succ m) = b) by (rewrite Hb; apply Z.log2_pow2; lia).
    lia.
  - left. fold (Z.succ m). lia.
Qed.

Lemma Zdigits2_pow2 (k : Z) : 0 <= k -> Zdigits2 (2 ^ k) = k + 1.
Proof.
  intros Hk. rewrite Zdigits2_log2 by (apply Z.pow_pos_nonneg; lia).
  rewrite Z.log2_pow2; lia.
Qed.

Section Rounding.
Variables prec emax : Z.
Hypothesis Hprec : 0 < prec.

Lemma fexp_max (x : Z) :
  fexp prec emax x = Z.max (x - prec) (3 - emax - prec).
Proof. reflexivity. Qed.

Lemma shr_record_of_loc_m (m : Z) (l : location) :
  shr_m (shr_record_of_loc m l) = m.
Proof. destruct l as [|[]]; reflexivity. Qed.

Lemma shr_fexp_m (m e : Z) (l : location) :
  0 <= m ->
  let n := Z.max 0 (fexp prec emax (Zdigits2 m + e) - e) in
  shr_m (fst (shr_fexp prec emax m e l)) = m / 2 ^ n
  /\ snd (shr_fexp prec emax m e l) = e + n.
Proof.
  intros Hm n. subst n. unfold shr_fexp, shr.
  destruct (fexp prec emax (Zdigits2 m + e) - e) as [|p|p] eqn:E; cbn [fst snd].
  - rewrite shr_record_of_loc_m, Z.max_id. simpl. rewrite Z.div_1_r. lia.
  - rewrite iter_pos_nat.
    destruct (shr_iter_m (Pos.to_nat p) (shr_record_of_loc m l)) as [H1 _].
    { rewrite shr_record_of_loc_m. exact Hm. }
    rewrite H1, shr_record_of_loc_m, positive_nat_Z.
    rewrite Z.max_r by lia. split; reflexivity.
  - rewrite shr_record_of_loc_m, Z.max_l by lia. simpl. rewrite Z.div_1_r. lia.
Qed.

Lemma round_nearest_even_cases (m : Z) (l : location) :
  round_nearest_even m l = m \/ round_nearest_even m l = m + 1.
Proof.
  destruct l as [|[]]; simpl; auto. destruct (Z.even m); auto.
Qed.

Lemma binary_round_aux_valid (s : bool) (m e : Z) (l : location) :
  0 <= m -> e <= fexp prec emax (Zdigits2 m + e) ->
  SpecFloat.valid_binary prec emax (binary_round_aux prec emax s m e l) = true.
Proof.
  intros Hm He. unfold binary_round_aux.
  destruct (shr_fexp_m m e l Hm) as [M1 E1].
  destruct (shr_fexp prec emax m e l) as [mrs1 e1]. cbn [fst snd] in M1, E1.
  set (m2 := round_nearest_even (shr_m mrs1) (loc_of_shr_record mrs1)).
  assert (Hm1 : 0 <= shr_m mrs1).
  { rewrite M1. apply Z.div_pos; [lia|]. apply Z.pow_pos_nonneg; lia. }
  assert (Hm2 : 0 <= m2).
  { subst m2. destruct (round_nearest_even_cases (shr_m mrs1) (loc_of_shr_record mrs1)); lia. }
  destruct (shr_fexp_m m2 e1 loc_Exact Hm2) as [M3 E3].
  destruct (shr_fexp prec emax m2 e1 loc_Exact) as [mrs3 e3]. cbn [fst snd] in M3, E3.
  destruct (shr_m mrs3) as [|m3|m3] eqn:Em3; try reflexivity.
  destruct (e3 <=? emax - prec) eqn:Ee3; try reflexivity.
  unfold SpecFloat.valid_binary, SpecFloat.bounded. rewrite Ee3, andb_true_r.
  unfold SpecFloat.canonical_mantissa. apply Z.eqb_eq.
  change (Z.pos (digits2_pos m3)) with (Zdigits2 (Z.pos m3)).
  clear Ee3.
  (* the magnitude bookkeeping *)
  assert (Hcases : m2 = shr_m mrs1 \/ m2 = shr_m mrs1 + 1)
    by apply round_nearest_even_cases.
  clearbody m2. rewrite !fexp_max in *.
  remember (Z.max 0 (Z.max (Zdigits2 m + e - prec) (3 - emax - prec) - e))
    as n1 eqn:Hn1.
  remember (Z.max 0 (Z.max (Zdigits2 m2 + e1 - prec) (3 - emax - prec) - e1))
    as n3 eqn:Hn3.
  assert (Hp1 : 0 < 2 ^ n1) by (apply Z.pow_pos_nonneg; lia).
  destruct (Z.eq_dec (shr_m mrs1) 0) as [Z1|NZ1].
  - (* every bit of the mantissa was shifted out *)
    assert (m2 = 1) as ->.
    { destruct Hcases as [C|C]; [|lia]. exfalso.
      rewrite C, Z1, Z.div_0_l in M3; [lia|]. apply Z.pow_nonzero; lia. }
    assert (Zdigits2 m + e <= e1).
    { destruct (Z.eq_dec m 0) as [->|]; [simpl in *; lia|].
      assert (Zdigits2 m <= n1) by (apply Zdigits2_div_pow_zero; lia). lia. }
    change (Zdigits2 1) with 1 in *.
    assert (n3 = 0) as R by lia.
    rewrite R, Z.pow_0_r, Z.div_1_r in M3. rewrite M3.
    change (Zdigits2 1) with 1. lia.
  - assert (Hmpos : 0 < m).
    { destruct (Z.eq_dec m 0) as [->|]; [|lia].
      rewrite Z.div_0_l in M1 by lia. lia. }
    assert (D1 : Zdigits2 (shr_m mrs1) = Zdigits2 m - n1)
      by (rewrite M1; apply Zdigits2_div_pow_pos; lia).
    pose proof (Zdigits2_pos (shr_m mrs1) ltac:(lia)) as Dpos.
    destruct Hcases as [S2|S2].
    + assert (n3 = 0) as R by (rewrite S2 in *; lia).
      rewrite R, Z.pow_0_r, Z.div_1_r in M3. rewrite M3, S2. lia.
    + destruct (Zdigits2_succ (shr_m mrs1)) as [K|[K1 K2]]; [lia| |];
        rewrite <- S2 in *.
      * assert (n3 = 0) as R by lia.
        rewrite R, Z.pow_0_r, Z.div_1_r in M3. rewrite M3. lia.
      * destruct (Z.le_gt_cases (3 - emax - prec) (Zdigits2 m + e - prec))
          as [C|C].
        -- assert (n3 = 1) as R by lia.
           rewrite R, K2 in M3.
           replace (Zdigits2 (shr_m mrs1))
             with (Z.succ (Zdigits2 (shr_m mrs1) - 1)) in M3 by lia.
           rewrite Z.pow_succ_r, Z.pow_1_r, Z.mul_comm, Z.div_mul in M3 by lia.
           rewrite M3, Zdigits2_pow2 by lia. lia.
        -- assert (n3 = 0) as R by lia.
           rewrite R, Z.pow_0_r, Z.div_1_r in M3. rewrite M3. lia.
Qed.

End Rounding.

Lemma Nat_iter_comm {A} (f : A -> A) (n : nat) (a : A) :
  Nat.iter n f (f a) = f (Nat.iter n f a).
Proof. induction n; simpl; congruence. Qed.

Lemma Zdigits2_shl (m d : positive) :
  Zdigits2 (Z.pos (Pos.iter xO m d)) = Zdigits2 (Z.pos m) + Z.pos d.
Proof.
  cbn [Zdigits2]. induction d as [|d IH] using Pos.peano_ind.
  - cbn [Pos.iter digits2_pos]. lia.
  - rewrite Pos.iter_succ. cbn [digits2_pos]. rewrite Pos2Z.inj_succ, IH. lia.
Qed.

Lemma shr_shl_exact (m d : positive) :
  SpecFloat.iter_pos shr_1 d (Build_shr_record (Z.pos (Pos.iter xO m d)) false false)
  = Build_shr_record (Z.pos m) false false.
Proof.
  rewrite iter_pos_nat. induction d as [|d IH] using Pos.peano_ind.
  - reflexivity.
  - rewrite Pos.iter_succ, Pos2Nat.inj_succ, Nat.iter_succ_r.
    cbn [shr_1 orb]. exact IH.
Qed.

Section RoundingMore.
Variables prec emax : Z.
Hypothesis Hprec : 0 < prec.

Lemma binary_round_valid (s : bool) (m : positive) (e : Z) :
  SpecFloat.valid_binary prec emax (binary_round prec emax s m e) = true.
Proof.
  unfold binary_round, shl_align.
  change (Z.pos (digits2_pos m)) with (Zdigits2 (Z.pos m)).
  destruct (fexp prec emax (Zdigits2 (Z.pos m) + e) - e) as [|d|d] eqn:E;
    apply binary_round_aux_valid; try lia.
  - rewrite Zdigits2_shl.
    replace (Zdigits2 (Z.pos m) + Z.pos d + fexp prec emax (Zdigits2 (Z.pos m) + e))
      with (Zdigits2 (Z.pos m) + e) by lia. lia.
Qed.

Lemma bounded_inv (m : positive) (e : Z) :
  SpecFloat.bounded prec emax m e = true ->
  fexp prec emax (Zdigits2 (Z.pos m) + e) = e /\ e <= emax - prec.
Proof.
  unfold SpecFloat.bounded, SpecFloat.canonical_mantissa. intros H.
  apply andb_true_iff in H. destruct H as [H1 H2].
  apply Z.eqb_eq in H1. apply Z.leb_le in H2. auto.
Qed.

Lemma binary_round_aux_bounded (s : bool) (m : positive) (e : Z) :
  SpecFloat.bounded prec emax m e = true ->
  binary_round_aux prec emax s (Z.pos m) e loc_Exact = S754_finite s m e.
Proof.
  intros H. destruct (bounded_inv m e H) as [F L].
  unfold binary_round_aux, shr_fexp. rewrite F, Z.sub_diag.
  cbn [shr shr_record_of_loc shr_m loc_of_shr_record round_nearest_even].
  rewrite F, Z.sub_diag. cbn [shr shr_record_of_loc shr_m].
  apply Z.leb_le in L. rewrite L. reflexivity.
Qed.

Lemma binary_round_bounded (s : bool) (m : positive) (e : Z) :
  SpecFloat.bounded prec emax m e = true ->
  binary_round prec emax s m e = S754_finite s m e.
Proof.
  intros H. destruct (bounded_inv m e H) as [F L].
  unfold binary_round, shl_align.
  change (Z.pos (digits2_pos m)) with (Zdigits2 (Z.pos m)).
  rewrite F, Z.sub_diag. apply binary_round_aux_bounded, H.
Qed.

(** Rounding a scaled copy [m * 2^d] at exponent [e - d] of a value
    already in the format gives that value back. *)
Lemma binary_round_scaled (s : bool) (m d : positive) (e : Z) :
  SpecFloat.bounded prec emax m e = true ->
  binary_round prec emax s (Pos.iter xO m d) (e - Z.pos d) = S754_finite s m e.
Proof.
  intros H. destruct (bounded_inv m e H) as [F L].
  unfold binary_round, shl_align.
  change (Z.pos (digits2_pos (Pos.iter xO m d)))
    with (Zdigits2 (Z.pos (Pos.iter xO m d))).
  rewrite Zdigits2_shl.
  replace (Zdigits2 (Z.pos m) + Z.pos d + (e - Z.pos d))
    with (Zdigits2 (Z.pos m) + e) by lia.
  rewrite F. replace (e - (e - Z.pos d)) with (Z.pos d) by lia.
  unfold binary_round_aux, shr_fexp. rewrite Zdigits2_shl.
  replace (Zdigits2 (Z.pos m) + Z.pos d + (e - Z.pos d))
    with (Zdigits2 (Z.pos m) + e) by lia.
  rewrite F. replace (e - (e - Z.pos d)) with (Z.pos d) by lia.
  cbn [shr shr_record_of_loc]. rewrite shr_shl_exact.
  cbn [shr_m loc_of_shr_record round_nearest_even].
  replace (e - Z.pos d + Z.pos d) with e by lia.
  rewrite F, Z.sub_diag. cbn [shr shr_record_of_loc shr_m].
  apply Z.leb_le in L. rewrite L. reflexivity.
Qed.

End RoundingMore.

Import Float32Array.

Lemma Math_fround_valid (x : number) :
  SpecFloat.valid_binary prec32 emax32 (Math_fround x) = true.
Proof.
  destruct x as [s|s| |s m e]; try reflexivity.
  apply binary_round_valid. reflexivity.
Qed.

Lemma widen_finite (s : bool) (m : positive) (e : Z) :
  SpecFloat.bounded prec32 emax32 m e = true ->
  exists d, widen (S754_finite s m e)
            = S754_finite s (Pos.iter xO m d) (e - Z.pos d).
Proof.
  intros H. destruct (bounded_inv prec32 emax32 m e H) as [F L].
  rewrite fexp_max in F. unfold prec32, emax32 in *.
  pose proof (Zdigits2_pos (Z.pos m) ltac:(lia)) as Dpos.
  unfold widen, binary_round, shl_align.
  change (Z.pos (digits2_pos m)) with (Zdigits2 (Z.pos m)).
  rewrite fexp_max. unfold prec64, emax64.
  destruct (Z.max (Zdigits2 (Z.pos m) + e - 53) (3 - 1024 - 53) - e) as [|d|d] eqn:E;
    try lia.
  exists d. 
  replace (Z.max (Zdigits2 (Z.pos m) + e - 53) (3 - 1024 - 53)) with (e - Z.pos d) by lia.
  apply binary_round_aux_bounded.
  unfold SpecFloat.bounded, SpecFloat.canonical_mantissa.
  change (Z.pos (digits2_pos (Pos.iter xO m d)))
      with (Zdigits2 (Z.pos (Pos.iter xO m d))).
  rewrite Zdigits2_shl, fexp_max.
  apply andb_true_iff. split; [apply Z.eqb_eq|apply Z.leb_le]; lia.
Qed.

Lemma fround_widen (v : f32) :
  SpecFloat.valid_binary prec32 emax32 v = true -> Math_fround (widen v) = v.
Proof.
  destruct v as [s|s| |s m e]; try reflexivity.
  cbn [SpecFloat.valid_binary]. intros H.
  destruct (widen_finite s m e H) as [d ->]. cbn [Math_fround].
  apply binary_round_scaled, H.
Qed.

Lemma fround_get_idem (x : number) :
  Math_fround (widen (Math_fround x)) = Math_fround x.
Proof. apply fround_widen, Math_fround_valid. Qed.

Lemma for_loop_S {St} (n : nat) (body : nat -> St -> St) (st : St) :
  for_loop (S n) body st = body n (for_loop n body st).
Proof. unfold for_loop. rewrite seq_S, fold_left_app. reflexivity. Qed.

Lemma parseColor_shape (c : string) :
  exists r g b a, parseColor c = [r; g; b; a].
Proof.
  unfold parseColor.
  destruct (if startsWith c "hsl" then exec hsl_pattern 3 c else None) as [m|].
  - unfold hsl_to_rgba. destruct (strict_eq _ _); eauto.
  - destruct (startsWith c "#"); unfold hex_to_rgba; eauto.
Qed.

Lemma flat_map_snoc {A B} (f : A -> list B) (l : list A) (a : A) :
  flat_map f (l ++ [a]) = flat_map f l ++ f a.
Proof. rewrite flat_map_app. simpl. rewrite app_nil_r. reflexivity. Qed.

Lemma length_xy_of ps : length (xy_of ps) = (length ps * 2)%nat.
Proof. induction ps; simpl; lia. Qed.
Lemma length_sizes_of ps : length (sizes_of ps) = length ps.
Proof. apply length_map. Qed.
Lemma length_rgba_of ps : length (rgba_of ps) = (length ps * 4)%nat.
Proof.
  induction ps as [|p ps IH]; [reflexivity|].
  unfold rgba_of in *. cbn [flat_map]. rewrite length_app, IH, length_map.
  destruct (parseColor_shape (color p)) as (r & g & b & a & ->). simpl. lia.
Qed.

Lemma extract_invariant (ps : list Particle) (k : nat) :
  (k <= length ps)%nat ->
  for_loop k (extract_particle ps)
    {| positions := Float32Array.make (length ps * 2);
       sizes := Float32Array.make (length ps);
       colors := Float32Array.make (length ps * 4) |}
  = {| positions := xy_of (take k ps) ++ Float32Array.make ((length ps - k) * 2);
       sizes := sizes_of (take k ps) ++ Float32Array.make (length ps - k);
       colors := rgba_of (take k ps) ++ Float32Array.make ((length ps - k) * 4) |}.
Proof.
  induction k as [|k IH]; intros Hk.
  - unfold for_loop. simpl. rewrite Nat.sub_0_r. reflexivity.
  - rewrite for_loop_S, IH by lia. clear IH.
    destruct (lookup_lt_is_Some_2 ps k ltac:(lia)) as [p Hp].
    unfold extract_particle. rewrite Hp. cbn [positions sizes colors].
    rewrite (take_S_r _ _ _ Hp).
    unfold xy_of, sizes_of, rgba_of. rewrite !flat_map_snoc, map_app.
    fold (xy_of (take k ps)) (sizes_of (take k ps)) (rgba_of (take k ps)).
    destruct (parseColor_shape (color p)) as (r & g & b & a & ->).
    cbn [array_get lookup list_lookup map].
    replace (length ps - k)%nat with (S (length ps - S k)) by lia.
    pose proof (length_xy_of (take k ps)) as L1.
    pose proof (length_sizes_of (take k ps)) as L2.
    pose proof (length_rgba_of (take k ps)) as L3.
    rewrite length_take in L1, L2, L3. rewrite Nat.min_l in L1, L2, L3 by lia.
    unfold Float32Array.set, Float32Array.make. cbn [Nat.mul Nat.add replicate].
    f_equal.
    + replace (k * 2 + 1)%nat with (length (xy_of (take k ps)) + 1)%nat by lia.
      replace (k * 2)%nat with (length (xy_of (take k ps)) + 0)%nat by lia.
      rewrite !insert_app_r. cbn. rewrite <- app_assoc. reflexivity.
    + replace k with (length (sizes_of (take k ps)) + 0)%nat at 1 by lia.
      rewrite insert_app_r. cbn. rewrite <- app_assoc. reflexivity.
    + replace (k * 4 + 3)%nat with (length (rgba_of (take k ps)) + 3)%nat by lia.
      replace (k * 4 + 2)%nat with (length (rgba_of (take k ps)) + 2)%nat by lia.
      replace (k * 4 + 1)%nat with (length (rgba_of (take k ps)) + 1)%nat by lia.
      replace (k * 4)%nat with (length (rgba_of (take k ps)) + 0)%nat by lia.
      rewrite !insert_app_r. cbn. rewrite <- app_assoc. reflexivity.
Qed.

Lemma extract_spec (ps : list Particle) :
  extract ps = {| positions := xy_of ps; sizes := sizes_of ps; colors := rgba_of ps |}.
Proof.
  unfold extract. rewrite extract_invariant by lia.
  rewrite firstn_all, Nat.sub_diag. cbn. rewrite !app_nil_r. reflexivity.
Qed.

Lemma draw_fallback_eq (r : Renderer) (a : InstanceArrays) (n : nat) :
  draw_fallback r a n = flat_map (fun i => draw_one r a i []) (seq 0 n).
Proof.
  unfold draw_fallback. induction n as [|n IH]; [reflexivity|].
  rewrite for_loop_S, IH, seq_S, flat_map_snoc. reflexivity.
Qed.

Lemma lookup_xy_of (ps : list Particle) (i : nat) (p : Particle) :
  ps !! i = Some p ->
  xy_of ps !! (i * 2)%nat = Some (Float32Array.Math_fround (x p))
  /\ xy_of ps !! (i * 2 + 1)%nat = Some (Float32Array.Math_fround (y p)).
Proof.
  revert i. induction ps as [|q ps IH]; intros i H; [discriminate|].
  destruct i as [|i]; simpl in H.
  - injection H as ->. split; reflexivity.
  - destruct (IH i H) as [H1 H2]. split; [exact H1|exact H2].
Qed.

Lemma lookup_sizes_of (ps : list Particle) (i : nat) (p : Particle) :
  ps !! i = Some p ->
  sizes_of ps !! i = Some (Float32Array.Math_fround (size p)).
Proof. intros H. unfold sizes_of. rewrite list_lookup_fmap, H. reflexivity. Qed.

Lemma lookup_rgba_of (ps : list Particle) (i j : nat) (p : Particle) :
  ps !! i = Some p -> (j < 4)%nat ->
  rgba_of ps !! (i * 4 + j)%nat
  = map Float32Array.Math_fround (parseColor (color p)) !! j.
Proof.
  revert i. induction ps as [|q ps IH]; intros i H Hj; [discriminate|].
  unfold rgba_of in *. cbn [flat_map].
  destruct (parseColor_shape (color q)) as (r & g & b & a & E).
  destruct i as [|i]; simpl in H.
  - injection H as ->. rewrite lookup_app_l; [reflexivity|].
    rewrite E. simpl. lia.
  - rewrite lookup_app_r by (rewrite E; simpl; lia).
    rewrite E. cbn [map length].
    replace (S i * 4 + j - 4)%nat with (i * 4 + j)%nat by lia. apply IH; assumption.
Qed.

Lemma flat_map_indexed {A B} (f : nat -> list B) (g : A -> list B) (l : list A) :
  (forall i a, l !! i = Some a -> f i = g a) ->
  flat_map f (seq 0 (length l)) = flat_map g l.
Proof.
  induction l as [|a l IH] using rev_ind; intros H; [reflexivity|].
  rewrite length_app. cbn [length]. rewrite Nat.add_1_r, seq_S, !flat_map_snoc.
  rewrite IH.
  - f_equal. apply H. rewrite lookup_app_r by lia.
    rewrite Nat.sub_diag. reflexivity.
  - intros i b Hi. apply H. rewrite lookup_app_l; [exact Hi|].
    apply lookup_lt_Some in Hi. exact Hi.
Qed.

Lemma draw_one_particle (r : Renderer) (ps : list Particle) (i : nat) (p : Particle) :
  ps !! i = Some p ->
  draw_one r (extract ps) i [] = draw_particle r p.
Proof.
  intros H. rewrite extract_spec. unfold draw_one, draw_particle.
  cbn [positions sizes colors app]. unfold Float32Array.get.
  destruct (lookup_xy_of ps i p H) as [-> ->].
  rewrite (lookup_sizes_of ps i p H).
  replace (i * 4)%nat with (i * 4 + 0)%nat at 1 by lia.
  rewrite !(lookup_rgba_of ps i _ p H) by lia.
  unfold xy_of, sizes_of, rgba_of. cbn [flat_map map app].
  destruct (parseColor_shape (color p)) as (cr & cg & cb & ca & ->).
  cbn [map lookup list_lookup Float32Array.of_array].
  rewrite !fround_get_idem. reflexivity.
Qed.

Lemma fallback_log (r : Renderer) (ps : list Particle) :
  draw_fallback r (extract ps) (length ps) = flat_map (draw_particle r) ps.
Proof.
  rewrite draw_fallback_eq. apply flat_map_indexed.
  intros i p H. apply draw_one_particle, H.
Qed.

Lemma drawParticles_log (r : Renderer) (pi : ProgramInfo) (ps : list Particle) :
  gl r = true -> programInfo r = Some pi -> ps <> [] ->
  drawParticles r (Some ps)
  = (setup r pi (extract ps)
       ++ (if instancedArraysExt r
           then draw_instanced r pi (length ps)
           else flat_map (draw_particle r) ps)
       ++ cleanup pi, Returned).
Proof.
  intros Hgl Hpi Hps. destruct ps as [|p ps]; [congruence|].
  unfold drawParticles. rewrite Hgl, Hpi, fallback_log. reflexivity.
Qed.

Lemma draw_commands_app (l1 l2 : list GLCommand) :
  draw_commands (l1 ++ l2) = draw_commands l1 ++ draw_commands l2.
Proof. apply List.filter_app. Qed.

Lemma draw_commands_particles (r : Renderer) (ps : list Particle) :
  draw_commands (flat_map (draw_particle r) ps)
  = map (fun _ => drawArrays TRIANGLE_FAN 0 (circleVertexCount r)) ps.
Proof.
  induction ps as [|p ps IH]; [reflexivity|].
  cbn [flat_map map]. rewrite draw_commands_app, IH. reflexivity.
Qed.

(** C1. On a working renderer [drawParticles] returns normally; an empty
    particle list issues no command at all; with the instancing extension
    a non-empty list of N particles issues exactly one draw command, the
    instanced TRIANGLE_FAN draw with instance count N; without the
    extension it issues exactly N draw commands, one per particle. *)
Theorem drawParticles_draw_count (r : Renderer) (pi : ProgramInfo) (ps : list Particle) :
  gl r = true -> programInfo r = Some pi ->
  let log := fst (drawParticles r (Some ps)) in
  snd (drawParticles r (Some ps)) = Returned
  /\ (ps = [] -> log = [])
  /\ (ps <> [] -> instancedArraysExt r = true ->
      draw_commands log
      = [drawArraysInstancedANGLE TRIANGLE_FAN 0 (circleVertexCount r)
           (Z.of_nat (length ps))])
  /\ (instancedArraysExt r = false ->
      draw_commands log
      = map (fun _ => drawArrays TRIANGLE_FAN 0 (circleVertexCount r)) ps
      /\ length (draw_commands log) = length ps).
Proof.
  intros Hgl Hpi log. subst log.
  destruct (decide (ps = [])) as [->|Hne].
  - repeat split; try reflexivity; congruence.
  - rewrite (drawParticles_log r pi ps Hgl Hpi Hne). cbn [fst snd].
    split; [reflexivity|]. split; [congruence|].
    rewrite !draw_commands_app. split.
    + intros _ ->. reflexivity.
    + intros ->. rewrite draw_commands_particles.
      cbn [setup cleanup draw_commands List.filter is_draw app].
      rewrite app_nil_r, length_map. split; reflexivity.
Qed.

Lemma gl_run_app (st : GLState) (l1 l2 : list GLCommand) :
  gl_run st (l1 ++ l2) = gl_run (gl_run st l1) l2.
Proof. apply fold_left_app. Qed.

Lemma lookup_insert3 {V} (m : gmap Z V) (k1 k2 k3 k : Z) (v : V) :
  k = k1 \/ k = k2 \/ k = k3 ->
  <[k3 := v]> (<[k2 := v]> (<[k1 := v]> m)) !! k = Some v.
Proof.
  intros H.
  destruct (decide (k = k3)) as [->|N3]; [apply lookup_insert_eq|].
  rewrite lookup_insert_ne by congruence.
  destruct (decide (k = k2)) as [->|N2]; [apply lookup_insert_eq|].
  rewrite lookup_insert_ne by congruence.
  destruct (decide (k = k1)) as [->|N1]; [apply lookup_insert_eq|].
  exfalso. destruct H as [?|[?|?]]; congruence.
Qed.

Lemma setup_drawn (st : GLState) (r : Renderer) (pi : ProgramInfo)
    (a : InstanceArrays) :
  drawn (gl_run st (setup r pi a)) = drawn st.
Proof. reflexivity. Qed.

(** C7. On the instanced path the log ends with the single instanced
    draw, then the three divisor resets, then the clean-up; the draw is
    executed with divisor 1 on the position, size and colour attributes,
    and when the call returns all three divisors are back to 0. *)
Theorem instanced_divisors_reset (r : Renderer) (pi : ProgramInfo)
    (ps : list Particle) (st : GLState) :
  gl r = true -> programInfo r = Some pi -> instancedArraysExt r = true ->
  ps <> [] ->
  let loc := attribLocations pi in
  let log := fst (drawParticles r (Some ps)) in
  let draw := drawArraysInstancedANGLE TRIANGLE_FAN 0 (circleVertexCount r)
                (Z.of_nat (length ps)) in
  (exists before,
      log = before
            ++ [ draw;
                 vertexAttribDivisorANGLE (instancePosition loc) 0;
                 vertexAttribDivisorANGLE (instanceSize loc) 0;
                 vertexAttribDivisorANGLE (instanceColor loc) 0 ]
            ++ cleanup pi
      /\ draw_commands before = [])
  /\ (exists b,
         drawn (gl_run st log) = drawn st ++ [(draw, b)]
         /\ attrib_divisor b !! instancePosition loc = Some 1
         /\ attrib_divisor b !! instanceSize loc = Some 1
         /\ attrib_divisor b !! instanceColor loc = Some 1)
  /\ divisor (gl_run st log) (instancePosition loc) = 0
  /\ divisor (gl_run st log) (instanceSize loc) = 0
  /\ divisor (gl_run st log) (instanceColor loc) = 0.
Proof.
  intros Hgl Hpi Hext Hne loc log draw. subst log.
  rewrite (drawParticles_log r pi ps Hgl Hpi Hne), Hext. cbn [fst].
  split; [|split].
  - exists (setup r pi (extract ps)
            ++ [ vertexAttribDivisorANGLE (instancePosition loc) 1;
                 vertexAttribDivisorANGLE (instanceSize loc) 1;
                 vertexAttribDivisorANGLE (instanceColor loc) 1 ]).
    split; [|reflexivity].
    rewrite <- !app_assoc. reflexivity.
  - rewrite gl_run_app.
    rewrite <- (setup_drawn st r pi (extract ps)).
    generalize (gl_run st (setup r pi (extract ps))). intros st1.
    eexists. split; [reflexivity|].
    cbn [gl_bind attrib_divisor].
    split; [|split]; apply lookup_insert3; auto.
  - rewrite gl_run_app.
    generalize (gl_run st (setup r pi (extract ps))). intros st1.
    unfold divisor.
    cbn [draw_instanced cleanup app gl_run fold_left gl_step gl_bind bindings
         attrib_divisor].
    rewrite !lookup_insert3 by auto. auto.
Qed.

Lemma NoDup4_inv {A} (a b c d : A) :
  NoDup [a; b; c; d] ->
  a <> b /\ a <> c /\ a <> d /\ b <> c /\ b <> d /\ c <> d.
Proof.
  intros H. inversion_clear H as [|? ? Ha H']. inversion_clear H' as [|? ? Hb H].
  inversion_clear H as [|? ? Hc _].
  repeat split; intros ->; set_solver.
Qed.

(** What one fallback iteration leaves behind, and what its draw sees. *)
Lemma draw_particle_run (r : Renderer) (p : Particle) (st : GLState) :
  NoDup [circleBuffer r; instancePositionBuffer r; instanceSizeBuffer r;
         instanceColorBuffer r] ->
  exists b,
    drawn (gl_run st (draw_particle r p))
    = drawn st ++ [(drawArrays TRIANGLE_FAN 0 (circleVertexCount r), b)]
    /\ bindings (gl_run st (draw_particle r p)) = b
    /\ stored b (instancePositionBuffer r) = Some (xy_of [p])
    /\ stored b (instanceSizeBuffer r) = Some (sizes_of [p])
    /\ stored b (instanceColorBuffer r) = Some (rgba_of [p])
    /\ stored b (circleBuffer r) = stored (bindings st) (circleBuffer r)
    /\ attrib_pointer b = attrib_pointer (bindings st)
    /\ attrib_enabled b = attrib_enabled (bindings st)
    /\ attrib_divisor b = attrib_divisor (bindings st).
Proof.
  intros ND.
  destruct (NoDup4_inv _ _ _ _ ND) as (? & ? & ? & ? & ? & ?).
  eexists. split; [reflexivity|]. split; [reflexivity|].
  unfold stored.
  cbn [gl_step gl_bind buffer_store array_buffer_binding attrib_pointer
       attrib_enabled attrib_divisor bindings].
  repeat split.
  - rewrite !lookup_insert_ne by congruence. apply lookup_insert_eq.
  - rewrite lookup_insert_ne by congruence. apply lookup_insert_eq.
  - apply lookup_insert_eq.
  - rewrite !lookup_insert_ne by congruence. reflexivity.
Qed.

Lemma fallback_draws (r : Renderer) (ps : list Particle) (st : GLState) :
  NoDup [circleBuffer r; instancePositionBuffer r; instanceSizeBuffer r;
         instanceColorBuffer r] ->
  exists new,
    drawn (gl_run st (flat_map (draw_particle r) ps)) = drawn st ++ new
    /\ length new = length ps
    /\ forall i p, ps !! i = Some p ->
       exists b,
         new !! i = Some (drawArrays TRIANGLE_FAN 0 (circleVertexCount r), b)
         /\ stored b (instancePositionBuffer r) = Some (xy_of [p])
         /\ stored b (instanceSizeBuffer r) = Some (sizes_of [p])
         /\ stored b (instanceColorBuffer r) = Some (rgba_of [p])
         /\ stored b (circleBuffer r) = stored (bindings st) (circleBuffer r)
         /\ attrib_pointer b = attrib_pointer (bindings st)
         /\ attrib_enabled b = attrib_enabled (bindings st)
         /\ attrib_divisor b = attrib_divisor (bindings st).
Proof.
  intros ND. revert st. induction ps as [|p ps IH]; intros st.
  - exists []. cbn. rewrite app_nil_r. repeat split. intros i p H. discriminate.
  - cbn [flat_map]. rewrite gl_run_app.
    destruct (draw_particle_run r p st ND)
      as (b & Hd & Hb & Hp & Hs & Hc & Ht & Hptr & Hen & Hdiv).
    destruct (IH (gl_run st (draw_particle r p))) as (new & Hnew & Hlen & Hall).
    exists ((drawArrays TRIANGLE_FAN 0 (circleVertexCount r), b) :: new).
    split; [|split].
    + rewrite Hnew, Hd, <- app_assoc. reflexivity.
    + cbn [length]. rewrite Hlen. reflexivity.
    + intros [|i] q Hq; cbn in Hq.
      * injection Hq as <-. exists b. repeat split; assumption.
      * destruct (Hall i q Hq) as (b' & ? & ? & ? & ? & E1 & E2 & E3 & E4).
        exists b'. rewrite Hb in E1, E2, E3, E4.
        repeat split; try assumption; congruence.
Qed.

Lemma lookup_insert4 {V} (m : gmap Z V) (k1 k2 k3 k4 k : Z) (v : V) :
  k = k1 \/ k = k2 \/ k = k3 \/ k = k4 ->
  <[k4 := v]> (<[k3 := v]> (<[k2 := v]> (<[k1 := v]> m))) !! k = Some v.
Proof.
  intros H.
  destruct (decide (k = k4)) as [->|N4]; [apply lookup_insert_eq|].
  rewrite lookup_insert_ne by congruence.
  apply lookup_insert3. tauto.
Qed.

Lemma setup_attributes (r : Renderer) (pi : ProgramInfo) (a : InstanceArrays)
    (st : GLState) :
  NoDup (attributes pi) ->
  let b := bindings (gl_run st (setup r pi a)) in
  let loc := attribLocations pi in
  attrib_divisor b = attrib_divisor (bindings st)
  /\ (forall i, i ∈ attributes pi -> attrib_enabled b !! i = Some true)
  /\ attrib_pointer b !! instancePosition loc = Some (Some (instancePositionBuffer r), 2)
  /\ attrib_pointer b !! instanceSize loc = Some (Some (instanceSizeBuffer r), 1)
  /\ attrib_pointer b !! instanceColor loc = Some (Some (instanceColorBuffer r), 4).
Proof.
  intros ND b loc. subst b loc. unfold attributes in *.
  destruct (NoDup4_inv _ _ _ _ ND) as (? & ? & ? & ? & ? & ?).
  unfold gl_run, setup.
  cbn [fold_left gl_step gl_bind bindings attrib_divisor attrib_enabled
       attrib_pointer array_buffer_binding].
  split; [reflexivity|]. split; [|split; [|split]].
  - intros i Hi. apply lookup_insert4.
    rewrite !elem_of_cons in Hi. rewrite elem_of_nil in Hi. tauto.
  - rewrite !lookup_insert_ne by congruence. apply lookup_insert_eq.
  - rewrite lookup_insert_ne by congruence. apply lookup_insert_eq.
  - apply lookup_insert_eq.
Qed.

Lemma filter_none {A} (f : A -> bool) (l : list A) :
  (forall i a, l !! i = Some a -> f a = false) -> List.filter f l = [].
Proof.
  induction l as [|a l IH]; intros H; [reflexivity|].
  cbn [List.filter]. rewrite (H 0%nat a eq_refl).
  apply IH. intros i a' Ha. exact (H (S i) a' Ha).
Qed.

(** C2. On the fallback path the commands between set-up and clean-up
    are the per-particle blocks in input order, and the surface receives N
    draws, the i-th with the three instance buffers holding exactly
    particle i's single position, size and colour. The three instance
    attributes are still enabled as per-vertex arrays (no extension, so
    every divisor is 0), and each draw asks for [circleVertexCount]
    vertices: with more than one template vertex every one of the N draws
    reads past the end of all three one-element buffers, fails the range
    check, and leaves no geometry. No particle is drawn, so none is on
    top. *)
Theorem fallback_draws_out_of_range (r : Renderer) (pi : ProgramInfo)
    (ps : list Particle) (st : GLState) :
  gl r = true -> programInfo r = Some pi -> instancedArraysExt r = false ->
  ps <> [] ->
  NoDup [circleBuffer r; instancePositionBuffer r; instanceSizeBuffer r;
         instanceColorBuffer r] ->
  NoDup (attributes pi) ->
  (forall i, divisor st i = 0) ->
  1 < circleVertexCount r ->
  let log := fst (drawParticles r (Some ps)) in
  let loc := attribLocations pi in
  let draw := drawArrays TRIANGLE_FAN 0 (circleVertexCount r) in
  log = setup r pi (extract ps) ++ flat_map (draw_particle r) ps ++ cleanup pi
  /\ exists new,
       drawn (gl_run st log) = drawn st ++ new
       /\ length new = length ps
       /\ (forall i p, ps !! i = Some p ->
           exists b,
             new !! i = Some (draw, b)
             /\ stored b (instancePositionBuffer r) = Some (xy_of [p])
             /\ stored b (instanceSizeBuffer r) = Some (sizes_of [p])
             /\ stored b (instanceColorBuffer r) = Some (rgba_of [p])
             /\ attribute_in_range b draw (instancePosition loc) = false
             /\ attribute_in_range b draw (instanceSize loc) = false
             /\ attribute_in_range b draw (instanceColor loc) = false)
       /\ List.filter (draw_in_range pi) new = []
       /\ rendered pi (gl_run st log) = rendered pi st.
Proof.
  intros Hgl Hpi Hext Hne ND NDloc Hdiv Hcount log loc draw. subst log.
  rewrite (drawParticles_log r pi ps Hgl Hpi Hne), Hext. cbn [fst].
  split; [reflexivity|].
  rewrite (gl_run_app st (setup r pi (extract ps))).
  rewrite (gl_run_app _ (flat_map (draw_particle r) ps) (cleanup pi)).
  destruct (fallback_draws r ps (gl_run st (setup r pi (extract ps))) ND)
    as (new & Hnew & Hlen & Hall).
  destruct (setup_attributes r pi (extract ps) st NDloc)
    as (Sdiv & Sen & Spos & Ssize & Scolor). fold loc in Spos, Ssize, Scolor.
  assert (Hdrawn : drawn (gl_run (gl_run (gl_run st (setup r pi (extract ps)))
                                   (flat_map (draw_particle r) ps)) (cleanup pi))
                   = drawn st ++ new).
  { rewrite <- (setup_drawn st r pi (extract ps)), <- Hnew. reflexivity. }
  assert (Hout : forall i p, ps !! i = Some p ->
           exists b,
             new !! i = Some (draw, b)
             /\ stored b (instancePositionBuffer r) = Some (xy_of [p])
             /\ stored b (instanceSizeBuffer r) = Some (sizes_of [p])
             /\ stored b (instanceColorBuffer r) = Some (rgba_of [p])
             /\ attribute_in_range b draw (instancePosition loc) = false
             /\ attribute_in_range b draw (instanceSize loc) = false
             /\ attribute_in_range b draw (instanceColor loc) = false).
  { intros i p Hp.
    destruct (Hall i p Hp) as (b & Hb & Hxy & Hsz & Hrgba & _ & Eptr & Een & Ediv).
    exists b. split; [exact Hb|]. split; [exact Hxy|]. split; [exact Hsz|].
    split; [exact Hrgba|].
    assert (D : forall k, default 0 (attrib_divisor b !! k) = 0).
    { intros k. rewrite Ediv, Sdiv. apply Hdiv. }
    unfold attribute_in_range, stored in *.
    rewrite Een, Eptr, !D, Spos, Ssize, Scolor, Hxy, Hsz, Hrgba.
    rewrite !Sen by (unfold attributes; fold loc; set_solver).
    subst draw. cbn [elements_read default from_option id Datatypes.id Z.eqb].
    rewrite length_xy_of, length_sizes_of, length_rgba_of.
    cbn [length Nat.mul Nat.add].
    repeat split; apply Z.leb_gt; lia. }
  exists new. split; [exact Hdrawn|]. split; [exact Hlen|]. split; [exact Hout|].
  assert (Hnone : List.filter (draw_in_range pi) new = []).
  { apply filter_none. intros i d Hd.
    assert (Hi : (i < length ps)%nat).
    { rewrite <- Hlen. apply lookup_lt_is_Some. eauto. }
    destruct (lookup_lt_is_Some_2 ps i Hi) as [p Hp].
    destruct (Hout i p Hp) as (b & Hb & _ & _ & _ & Hr & _).
    rewrite Hd in Hb. injection Hb as ->.
    unfold draw_in_range, attributes. fold loc. cbn [forallb fst snd].
    rewrite Hr. apply andb_false_r. }
  split; [exact Hnone|].
  unfold rendered. rewrite Hdrawn, List.filter_app, Hnone. apply app_nil_r.
Qed.

(** C9. A [null] or [undefined] argument returns at once: no command, no
    upload, no draw, and the surface is left as it was. *)
Theorem drawParticles_null (r : Renderer) (st : GLState) :
  drawParticles r None = ([], Returned)
  /\ uploads (fst (drawParticles r None)) = []
  /\ draw_commands (fst (drawParticles r None)) = []
  /\ gl_run st (fst (drawParticles r None)) = st.
Proof. repeat split. Qed.

Lemma drawParticles_empty (r : Renderer) :
  drawParticles r (Some []) = ([], Returned).
Proof. reflexivity. Qed.

Lemma uploads_app (l1 l2 : list GLCommand) :
  uploads (l1 ++ l2) = uploads l1 ++ uploads l2.
Proof. apply omap_app. Qed.

Lemma uploads_particles (r : Renderer) (ps : list Particle) :
  uploads (flat_map (draw_particle r) ps)
  = flat_map (fun p => [xy_of [p]; sizes_of [p]; rgba_of [p]]) ps.
Proof.
  induction ps as [|p ps IH]; [reflexivity|].
  cbn [flat_map]. rewrite uploads_app, IH. reflexivity.
Qed.

Lemma element_xy (ps : list Particle) (i : nat) (p : Particle) :
  ps !! i = Some p -> element 2 (xy_of ps) i = xy_of [p].
Proof.
  unfold element. revert i. induction ps as [|q ps IH]; intros i H; [discriminate|].
  destruct i as [|i]; cbn in H.
  - injection H as ->. reflexivity.
  - replace (2 * S i)%nat with (S (S (2 * i))) by lia. cbn [xy_of flat_map app drop].
    apply IH, H.
Qed.

Lemma element_size (ps : list Particle) (i : nat) (p : Particle) :
  ps !! i = Some p -> element 1 (sizes_of ps) i = sizes_of [p].
Proof.
  unfold element. revert i. induction ps as [|q ps IH]; intros i H; [discriminate|].
  destruct i as [|i]; cbn in H.
  - injection H as ->. reflexivity.
  - replace (1 * S i)%nat with (S (1 * i)) by lia. cbn [sizes_of map drop].
    apply IH, H.
Qed.

Lemma element_rgba (ps : list Particle) (i : nat) (p : Particle) :
  ps !! i = Some p -> element 4 (rgba_of ps) i = rgba_of [p].
Proof.
  unfold element. revert i. induction ps as [|q ps IH]; intros i H; [discriminate|].
  unfold rgba_of in *. cbn [flat_map].
  destruct (parseColor_shape (color q)) as (cr & cg & cb & ca & E).
  destruct i as [|i]; cbn in H.
  - injection H as ->. rewrite E. reflexivity.
  - rewrite E. replace (4 * S i)%nat with (S (S (S (S (4 * i))))) by lia.
    cbn [map app drop]. apply IH, H.
Qed.

Lemma uploads_setup (r : Renderer) (pi : ProgramInfo) (a : InstanceArrays) :
  uploads (setup r pi a) = [positions a; sizes a; colors a].
Proof. reflexivity. Qed.

Lemma uploads_cleanup (pi : ProgramInfo) : uploads (cleanup pi) = [].
Proof. reflexivity. Qed.

(** C3. For N >= 1 particles the instance arrays have lengths 2N, N and
    4N and hold the interleaved positions, the sizes and the interleaved
    colours of this call's particles in input order; they are uploaded
    whole, and whatever an earlier call left in the buffers is replaced by
    them. *)
Theorem instance_arrays_rebuilt (r : Renderer) (pi : ProgramInfo)
    (ps prev : list Particle) (st : GLState) :
  gl r = true -> programInfo r = Some pi -> ps <> [] ->
  NoDup [circleBuffer r; instancePositionBuffer r; instanceSizeBuffer r;
         instanceColorBuffer r] ->
  let a := extract ps in
  let n := length ps in
  length (positions a) = (2 * n)%nat
  /\ length (sizes a) = n
  /\ length (colors a) = (4 * n)%nat
  /\ positions a = xy_of ps
  /\ sizes a = sizes_of ps
  /\ colors a = rgba_of ps
  /\ take 3 (uploads (fst (drawParticles r (Some ps))))
     = [xy_of ps; sizes_of ps; rgba_of ps]
  /\ let earlier := gl_run st (fst (drawParticles r (Some prev))) in
     let b := bindings (gl_run earlier (setup r pi a)) in
     stored b (instancePositionBuffer r) = Some (xy_of ps)
     /\ stored b (instanceSizeBuffer r) = Some (sizes_of ps)
     /\ stored b (instanceColorBuffer r) = Some (rgba_of ps).
Proof.
  intros Hgl Hpi Hne ND a n. subst a n.
  rewrite (drawParticles_log r pi ps Hgl Hpi Hne). cbn [fst].
  rewrite extract_spec. cbn [positions sizes colors].
  rewrite length_xy_of, length_sizes_of, length_rgba_of.
  repeat (split; [first [lia | reflexivity]|]).
  generalize (gl_run st (fst (drawParticles r (Some prev)))). intros earlier.
  destruct (NoDup4_inv _ _ _ _ ND) as (? & ? & ? & ? & ? & ?).
  unfold stored, gl_run, setup.
  cbn [fold_left gl_step gl_bind bindings buffer_store array_buffer_binding
       positions sizes colors].
  repeat split.
  - rewrite !lookup_insert_ne by congruence. apply lookup_insert_eq.
  - rewrite lookup_insert_ne by congruence. apply lookup_insert_eq.
  - apply lookup_insert_eq.
Qed.

(** C10. Both paths upload from one snapshot: the instanced path uploads
    the three arrays whole, the fallback path uploads the same three
    arrays and then, at iteration i, exactly elements 2i and 2i+1 of the
    positions, element i of the sizes and elements 4i..4i+3 of the
    colours of those arrays. *)
Theorem paths_share_snapshot (rb rf : Renderer) (pib pif : ProgramInfo)
    (ps : list Particle) (i : nat) (p : Particle) :
  gl rb = true -> programInfo rb = Some pib -> instancedArraysExt rb = true ->
  gl rf = true -> programInfo rf = Some pif -> instancedArraysExt rf = false ->
  ps !! i = Some p ->
  let a := extract ps in
  let batched := uploads (fst (drawParticles rb (Some ps))) in
  let fallback := uploads (fst (drawParticles rf (Some ps))) in
  batched = [positions a; sizes a; colors a]
  /\ fallback
     = [positions a; sizes a; colors a]
       ++ flat_map (fun j => [ element 2 (positions a) j;
                               element 1 (sizes a) j;
                               element 4 (colors a) j ])
            (seq 0 (length ps))
  /\ draw_one rf a i []
     = [ bindBuffer ARRAY_BUFFER (instancePositionBuffer rf);
         bufferData ARRAY_BUFFER (element 2 (positions a) i) DYNAMIC_DRAW;
         bindBuffer ARRAY_BUFFER (instanceSizeBuffer rf);
         bufferData ARRAY_BUFFER (element 1 (sizes a) i) DYNAMIC_DRAW;
         bindBuffer ARRAY_BUFFER (instanceColorBuffer rf);
         bufferData ARRAY_BUFFER (element 4 (colors a) i) DYNAMIC_DRAW;
         drawArrays TRIANGLE_FAN 0 (circleVertexCount rf) ]
  /\ positions a !! (2 * i)%nat = element 2 (positions a) i !! 0%nat
  /\ positions a !! (2 * i + 1)%nat = element 2 (positions a) i !! 1%nat
  /\ sizes a !! i = element 1 (sizes a) i !! 0%nat
  /\ (forall j, (j < 4)%nat ->
        colors a !! (4 * i + j)%nat = element 4 (colors a) i !! j)
  /\ length (element 2 (positions a) i) = 2%nat
  /\ length (element 1 (sizes a) i) = 1%nat
  /\ length (element 4 (colors a) i) = 4%nat.
Proof.
  intros Hgb Hpb Heb Hgf Hpf Hef Hp a batched fallback.
  assert (Hne : ps <> []) by (intros ->; discriminate).
  subst a batched fallback.
  rewrite (drawParticles_log rb pib ps Hgb Hpb Hne), Heb.
  rewrite (drawParticles_log rf pif ps Hgf Hpf Hne), Hef. cbn [fst].
  rewrite (draw_one_particle rf ps i p Hp).
  rewrite extract_spec. cbn [positions sizes colors].
  rewrite (element_xy ps i p Hp), (element_size ps i p Hp), (element_rgba ps i p Hp).
  split; [reflexivity|]. split.
  { rewrite !uploads_app, uploads_particles, uploads_setup, uploads_cleanup.
    cbn [positions sizes colors]. rewrite app_nil_r. f_equal. symmetry.
    apply flat_map_indexed. intros j q Hq.
    rewrite (element_xy ps j q Hq), (element_size ps j q Hq), (element_rgba ps j q Hq).
    reflexivity. }
  split; [reflexivity|].
  destruct (lookup_xy_of ps i p Hp) as [X Y].
  replace (2 * i)%nat with (i * 2)%nat by lia. rewrite X, Y.
  rewrite (lookup_sizes_of ps i p Hp).
  split; [reflexivity|]. split; [reflexivity|]. split; [reflexivity|].
  split.
  { intros j Hj. replace (4 * i)%nat with (i * 4)%nat by lia.
    rewrite (lookup_rgba_of ps i j p Hp Hj).
    unfold rgba_of. cbn [flat_map]. rewrite app_nil_r. reflexivity. }
  split; [reflexivity|]. split; [reflexivity|].
  unfold rgba_of. cbn [flat_map]. rewrite app_nil_r, length_map.
  destruct (parseColor_shape (color p)) as (cr & cg & cb & ca & ->). reflexivity.
Qed.

Lemma append_cons (c : ascii) (s1 s2 : string) :
  (String c s1 ++ s2)%string = String c (s1 ++ s2)%string.
Proof. reflexivity. Qed.

Lemma append_nil (s : string) : ("" ++ s)%string = s.
Proof. reflexivity. Qed.

Lemma string_length_app (s1 s2 : string) :
  String.length (s1 ++ s2)%string = (String.length s1 + String.length s2)%nat.
Proof.
  induction s1 as [|c s1 IH]; [reflexivity|].
  rewrite append_cons. cbn [String.length]. rewrite IH. reflexivity.
Qed.

Lemma substring_prefix (s1 s2 : string) :
  String.substring 0 (String.length s1) (s1 ++ s2)%string = s1.
Proof.
  induction s1 as [|c s1 IH]; [destruct s2; reflexivity|].
  rewrite append_cons. cbn [String.length substring]. rewrite IH. reflexivity.
Qed.

Lemma consumed_app (s1 s2 : string) : consumed (s1 ++ s2)%string s2 = s1.
Proof.
  unfold consumed. rewrite string_length_app.
  replace (String.length s1 + String.length s2 - String.length s2)%nat
    with (String.length s1) by lia.
  apply substring_prefix.
Qed.

Lemma consumed_all (s : string) : consumed s "" = s.
Proof.
  unfold consumed. cbn [String.length]. rewrite Nat.sub_0_r.
  induction s as [|c s IH]; [reflexivity|].
  cbn [String.length substring]. rewrite IH. reflexivity.
Qed.

Lemma rx_cat (r1 r2 : regex) (s : string) (caps : captures) (k : cont) :
  rx (Cat r1 r2) s caps k = rx r1 s caps (fun s1 c1 => rx r2 s1 c1 k).
Proof. reflexivity. Qed.

Lemma star_loop_S (step : string -> captures -> cont -> option captures)
    (k : cont) (fuel : nat) (s : string) (caps : captures) :
  star_loop step k (S fuel) s caps
  = match step s caps
            (fun s1 c1 =>
               if (String.length s1 <? String.length s)%nat
               then star_loop step k fuel s1 c1 else None) with
    | Some m => Some m
    | None => k s caps
    end.
Proof. reflexivity. Qed.

Lemma rx_cls_true (p : ascii -> bool) (c : ascii) (s : string)
    (caps : captures) (k : cont) :
  p c = true -> rx (Cls p) (String c s) caps k = k s caps.
Proof. intros H. cbn [rx]. rewrite H. reflexivity. Qed.

Lemma rx_cls_stops (p : ascii -> bool) (s : string) (caps : captures) (k : cont) :
  stops p s = true -> rx (Cls p) s caps k = None.
Proof.
  intros H. destruct s as [|c s]; [reflexivity|].
  cbn in H. apply negb_true_iff in H. cbn [rx]. rewrite H. reflexivity.
Qed.

Lemma star_loop_cls (p : ascii -> bool) (l rest : string) (caps : captures)
    (k : cont) (m : captures) (fuel : nat) :
  Spec.all_chars p l = true -> stops p rest = true ->
  (String.length l <= fuel)%nat ->
  k rest caps = Some m ->
  star_loop (rx (Cls p)) k fuel (l ++ rest)%string caps = Some m.
Proof.
  intros Hl Hstop. revert fuel. induction l as [|c l IH]; intros fuel Hfuel Hk.
  - rewrite append_nil. destruct fuel as [|fuel]; [exact Hk|].
    rewrite star_loop_S, rx_cls_stops by exact Hstop. exact Hk.
  - cbn in Hl. apply andb_true_iff in Hl as [Hc Hl].
    destruct fuel as [|fuel]; [cbn in Hfuel; lia|].
    rewrite append_cons, star_loop_S, rx_cls_true by exact Hc.
    cbn [String.length]. rewrite (proj2 (Nat.ltb_lt _ _)) by lia.
    rewrite (IH Hl fuel); [reflexivity| cbn in Hfuel; lia | exact Hk].
Qed.

Lemma rx_star_cls (p : ascii -> bool) (l rest : string) (caps : captures)
    (k : cont) (m : captures) :
  Spec.all_chars p l = true -> stops p rest = true ->
  k rest caps = Some m ->
  rx (Star (Cls p)) (l ++ rest)%string caps k = Some m.
Proof.
  intros Hl Hstop Hk.
  change (rx (Star (Cls p)) (l ++ rest)%string caps k)
    with (star_loop (rx (Cls p)) k (String.length (l ++ rest)%string)
            (l ++ rest)%string caps).
  apply star_loop_cls; try assumption.
  rewrite string_length_app. lia.
Qed.

Lemma rx_plus_cls (p : ascii -> bool) (l rest : string) (caps : captures)
    (k : cont) (m : captures) :
  Spec.nonempty l = true -> Spec.all_chars p l = true -> stops p rest = true ->
  k rest caps = Some m ->
  rx (Plus (Cls p)) (l ++ rest)%string caps k = Some m.
Proof.
  intros Hne Hl Hstop Hk. destruct l as [|c l]; [discriminate|].
  cbn in Hl. apply andb_true_iff in Hl as [Hc Hl].
  unfold Plus. rewrite append_cons, rx_cat, rx_cls_true by exact Hc.
  change (rx (Star (Cls p)) (l ++ rest)%string caps k)
    with (star_loop (rx (Cls p)) k (String.length (l ++ rest)%string)
            (l ++ rest)%string caps).
  apply star_loop_cls; try assumption. rewrite string_length_app. lia.
Qed.

Lemma rx_group_plus_cls (n : nat) (p : ascii -> bool) (l rest : string)
    (caps : captures) (k : cont) (m : captures) :
  Spec.nonempty l = true -> Spec.all_chars p l = true -> stops p rest = true ->
  k rest (<[n := Some l]> caps) = Some m ->
  rx (Grp n (Plus (Cls p))) (l ++ rest)%string caps k = Some m.
Proof.
  intros Hne Hl Hstop Hk.
  change (rx (Grp n (Plus (Cls p))) (l ++ rest)%string caps k)
    with (rx (Plus (Cls p)) (l ++ rest)%string caps
            (fun s1 c1 => k s1 (<[n := Some (consumed (l ++ rest)%string s1)]> c1))).
  apply rx_plus_cls; try assumption.
  cbv beta. rewrite consumed_app. exact Hk.
Qed.

Lemma rx_chr (c : ascii) (s : string) (caps : captures) (k : cont) :
  rx (Chr c) (String c s) caps k = k s caps.
Proof. cbn [rx]. rewrite Ascii.eqb_refl. reflexivity. Qed.

(** Character classes of the pattern are pairwise apart where it matters. *)
Lemma code_range (c : ascii) : 0 <= code c < 256.
Proof.
  unfold code. pose proof (nat_ascii_bounded c). lia.
Qed.

Lemma space_not_digit_or_dot (c : ascii) :
  is_space c = true -> is_digit_or_dot c = false.
Proof. unfold is_space, is_digit_or_dot, is_digit. lia. Qed.

Lemma space_not_digit (c : ascii) : is_space c = true -> is_digit c = false.
Proof. unfold is_space, is_digit. lia. Qed.

Lemma digit_not_space (c : ascii) : is_digit c = true -> is_space c = false.
Proof. unfold is_space, is_digit. lia. Qed.

Lemma stops_spaces_then (p : ascii -> bool) (w : string) (c : ascii) (t : string) :
  Spec.all_chars is_space w = true ->
  (forall a, is_space a = true -> p a = false) -> p c = false ->
  stops p (w ++ String c t)%string = true.
Proof.
  intros Hw Hp Hc. destruct w as [|a w].
  - rewrite append_nil. cbn. rewrite Hc. reflexivity.
  - rewrite append_cons. cbn. cbn in Hw. apply andb_true_iff in Hw as [Ha _]. rewrite (Hp a Ha). reflexivity.
Qed.

Lemma stops_digits_then (l : string) (t : string) :
  Spec.nonempty l = true -> Spec.all_chars is_digit l = true ->
  stops is_space (l ++ t)%string = true.
Proof.
  intros Hne Hl. destruct l as [|a l]; [discriminate|].
  rewrite append_cons. cbn. cbn in Hl. apply andb_true_iff in Hl as [Ha _].
  rewrite (digit_not_space a Ha). reflexivity.
Qed.

Lemma rx_eps (s : string) (caps : captures) (k : cont) :
  rx Eps s caps k = k s caps.
Proof. reflexivity. Qed.

Ltac rx_step :=
  first [ rewrite rx_cat | rewrite rx_chr | rewrite rx_eps ]; cbv beta.

Lemma hsl_parts_inv (H w1 w2 S w3 w4 L : string) :
  Spec.hsl_parts H w1 w2 S w3 w4 L = true ->
  (Spec.nonempty H = true /\ Spec.all_chars is_digit_or_dot H = true)
  /\ (Spec.nonempty S = true /\ Spec.all_chars is_digit S = true)
  /\ (Spec.nonempty L = true /\ Spec.all_chars is_digit L = true)
  /\ Spec.all_chars is_space w1 = true /\ Spec.all_chars is_space w2 = true
  /\ Spec.all_chars is_space w3 = true /\ Spec.all_chars is_space w4 = true.
Proof.
  unfold Spec.hsl_parts. rewrite !andb_true_iff. tauto.
Qed.

Lemma match_here_hsl (H w1 w2 S w3 w4 L : string) :
  Spec.hsl_parts H w1 w2 S w3 w4 L = true ->
  match_here hsl_pattern 3 (Spec.hsl_text H w1 w2 S w3 w4 L)
  = Some [Some (Spec.hsl_text H w1 w2 S w3 w4 L); Some H; Some S; Some L].
Proof.
  intros Hparts.
  destruct (hsl_parts_inv _ _ _ _ _ _ _ Hparts)
    as ((HH1 & HH2) & (HS1 & HS2) & (HL1 & HL2) & Hw1 & Hw2 & Hw3 & Hw4).
  unfold match_here.
  set (whole := Spec.hsl_text H w1 w2 S w3 w4 L). unfold Spec.hsl_text in whole.
  set (k := fun (s' : string) (caps : captures) =>
              Some (<[0%nat := Some (consumed whole s')]> caps)).
  subst whole. unfold hsl_pattern. cbn [Lit].
  rewrite !append_cons, !append_nil.
  repeat rx_step.
  apply rx_group_plus_cls; try assumption.
  { apply stops_spaces_then; [assumption|apply space_not_digit_or_dot|reflexivity]. }
  repeat rx_step.
  apply rx_star_cls; [assumption|reflexivity|].
  repeat rx_step.
  apply rx_star_cls; [assumption|apply stops_digits_then; assumption|].
  repeat rx_step.
  apply rx_group_plus_cls; try assumption; [reflexivity|].
  repeat rx_step.
  apply rx_star_cls; [assumption|reflexivity|].
  repeat rx_step.
  apply rx_star_cls; [assumption|apply stops_digits_then; assumption|].
  repeat rx_step.
  apply rx_group_plus_cls; try assumption; [reflexivity|].
  repeat rx_step.
  subst k. cbv beta. rewrite consumed_all. reflexivity.
Qed.

Lemma exec_hsl (H w1 w2 S w3 w4 L : string) :
  Spec.hsl_parts H w1 w2 S w3 w4 L = true ->
  exec hsl_pattern 3 (Spec.hsl_text H w1 w2 S w3 w4 L)
  = Some [Some (Spec.hsl_text H w1 w2 S w3 w4 L); Some H; Some S; Some L].
Proof.
  intros Hparts.
  assert (E : forall s m, match_here hsl_pattern 3 s = Some m ->
                          exec hsl_pattern 3 s = Some m).
  { intros s m Hm. destruct s; cbn [exec]; rewrite Hm; reflexivity. }
  apply E, match_here_hsl, Hparts.
Qed.

Lemma hue2rgb_channel (p q t : number) : hue2rgb p q t = Spec.hue_channel p q t.
Proof. reflexivity. Qed.


Lemma hex_digit_cases (c : ascii) :
  Spec.is_hex_digit c = true -> In c hex_chars.
Proof.
  destruct c as [[] [] [] [] [] [] [] []]; intros H;
    vm_compute in H; try discriminate H; clear H;
    unfold hex_chars; cbn [list_ascii_of_string In];
    repeat (first [left; reflexivity | right]).
Qed.

Lemma parseInt_hex_pair (c1 c2 : ascii) :
  Spec.is_hex_digit c1 = true -> Spec.is_hex_digit c2 = true ->
  parseInt (String c1 (String c2 "")) 16 = of_Z (Spec.hex_pair c1 c2).
Proof.
  intros H1 H2. apply hex_digit_cases in H1, H2.
  unfold hex_chars in H1, H2. cbn [list_ascii_of_string In] in H1, H2.
  repeat (destruct H1 as [<-|H1]; [
    repeat (destruct H2 as [<-|H2]; [vm_compute; reflexivity|]); contradiction |]).
  contradiction.
Qed.

(** C4. For every [#RRGGBB] with six hexadecimal digits the result is
    the three digit pairs divided by 255 and alpha 1; [#ff0000] is
    (1,0,0,1) and [#000000] is (0,0,0,1). *)
Theorem parseColor_hex (c1 c2 c3 c4 c5 c6 : ascii) :
  Spec.is_hex_digit c1 = true -> Spec.is_hex_digit c2 = true ->
  Spec.is_hex_digit c3 = true -> Spec.is_hex_digit c4 = true ->
  Spec.is_hex_digit c5 = true -> Spec.is_hex_digit c6 = true ->
  let s := String "#" (String c1 (String c2 (String c3 (String c4
             (String c5 (String c6 "")))))) in
  Spec.hex_form s = true
  /\ parseColor s
     = [ (of_Z (Spec.hex_pair c1 c2) / of_Z 255)%js;
         (of_Z (Spec.hex_pair c3 c4) / of_Z 255)%js;
         (of_Z (Spec.hex_pair c5 c6) / of_Z 255)%js;
         of_Z 1 ]
  /\ parseColor "#ff0000" = [of_Z 1; of_Z 0; of_Z 0; of_Z 1]
  /\ parseColor "#000000" = [of_Z 0; of_Z 0; of_Z 0; of_Z 1].
Proof.
  intros H1 H2 H3 H4 H5 H6 s. subst s.
  split; [|split; [|split; vm_compute; reflexivity]].
  - cbn [Spec.hex_form String.length Spec.all_chars Nat.eqb].
    rewrite H1, H2, H3, H4, H5, H6. reflexivity.
  - unfold parseColor.
    change (startsWith (String "#" _) "hsl") with false.
    change (startsWith (String "#" _) "#") with true.
    cbv iota. unfold hex_to_rgba.
    change (slice (String "#" (String c1 (String c2 (String c3 (String c4
              (String c5 (String c6 ""))))))) 1 3) with (String c1 (String c2 "")).
    change (slice (String "#" (String c1 (String c2 (String c3 (String c4
              (String c5 (String c6 ""))))))) 3 5) with (String c3 (String c4 "")).
    change (slice (String "#" (String c1 (String c2 (String c3 (String c4
              (String c5 (String c6 ""))))))) 5 7) with (String c5 (String c6 "")).
    rewrite !parseInt_hex_pair by assumption. reflexivity.
Qed.

(** C6 as stated fails: [#zzzzzz] is in neither supported format, yet
    its channels are NaN, not 0. *)
Lemma malformed_hex_is_not_black :
  Spec.hex_form "#zzzzzz" = false
  /\ ~ Spec.hsl_form "#zzzzzz"
  /\ parseColor "#zzzzzz" = [NaN; NaN; NaN; of_Z 1]
  /\ parseColor "#zzzzzz" <> Spec.black.
Proof.
  split; [reflexivity|]. split; [|split].
  - intros (H & w1 & w2 & S & w3 & w4 & L & _ & E).
    unfold Spec.hsl_text in E. rewrite append_cons in E. discriminate E.
  - vm_compute. reflexivity.
  - vm_compute. discriminate.
Qed.

(** C6, amended. A string that does not begin with [#], and that does
    not begin with [hsl] or holds no match of the hsl pattern, resolves to
    opaque black; the empty string and [purple] are such strings. *)
Theorem parseColor_default_black (s : string) :
  startsWith s "#" = false ->
  startsWith s "hsl" = false \/ exec hsl_pattern 3 s = None ->
  parseColor s = Spec.black
  /\ parseColor "" = Spec.black
  /\ parseColor "purple" = Spec.black.
Proof.
  intros Hhash Hhsl. split; [|split; vm_compute; reflexivity].
  unfold parseColor. rewrite Hhash.
  destruct Hhsl as [-> | ->]; [reflexivity|].
  destruct (startsWith s "hsl"); reflexivity.
Qed.

Lemma length_ring {A} (f g : nat -> A) (k : nat) :
  length (flat_map (fun i => [f i; g i]) (seq 0 k)) = (2 * k)%nat.
Proof.
  induction k as [|k IH]; [reflexivity|].
  rewrite seq_S, flat_map_snoc, length_app, IH. simpl. lia.
Qed.



Section TemplateShape.

Variables Math_cos Math_sin : number -> number.

Lemma circle_vertices_closed_form (n k : nat) :
  for_loop k (Template.push_ring_vertex Math_cos Math_sin n) [of_Z 0; of_Z 0]
  = [of_Z 0; of_Z 0]
    ++ flat_map (fun i => [Math_cos (Template.theta n i);
                           Math_sin (Template.theta n i)]) (seq 0 k).
Proof.
  induction k as [|k IH]; [reflexivity|].
  rewrite for_loop_S, IH, seq_S, flat_map_snoc. unfold Template.push_ring_vertex.
  rewrite <- app_assoc. reflexivity.
Qed.


End TemplateShape.











(* ------------------------------------------------------------------ *)
(** * The theorems at a concrete frame *)
(* ------------------------------------------------------------------ *)

Lemma demo_buffers_distinct (instancing : bool) :
  NoDup [circleBuffer (demo_renderer instancing);
         instancePositionBuffer (demo_renderer instancing);
         instanceSizeBuffer (demo_renderer instancing);
         instanceColorBuffer (demo_renderer instancing)].
Proof. apply (bool_decide_unpack _). vm_compute. exact I. Defined.

Lemma demo_locations_distinct :
  NoDup [vertexPosition (attribLocations demo_program);
         instancePosition (attribLocations demo_program);
         instanceSize (attribLocations demo_program);
         instanceColor (attribLocations demo_program)].
Proof. apply (bool_decide_unpack _). vm_compute. exact I. Defined.

Lemma drawParticles_draw_count_witness :
  gl (demo_renderer true) = true
  /\ programInfo (demo_renderer true) = Some demo_program
  /\ draw_commands (fst (drawParticles (demo_renderer true) (Some demo_particles)))
     = [drawArraysInstancedANGLE TRIANGLE_FAN 0 14 2].
Proof.
  split; [reflexivity|]. split; [reflexivity|].
  destruct (drawParticles_draw_count (demo_renderer true) demo_program
              demo_particles eq_refl eq_refl) as (_ & _ & H & _).
  apply H; [discriminate|reflexivity].
Defined.

Lemma fallback_draws_out_of_range_witness :
  instancedArraysExt (demo_renderer false) = false
  /\ 1 < circleVertexCount (demo_renderer false)
  /\ rendered demo_program
       (gl_run fresh_surface
          (fst (drawParticles (demo_renderer false) (Some demo_overlapping))))
     = [].
Proof.
  split; [reflexivity|]. split; [reflexivity|].
  destruct (fallback_draws_out_of_range (demo_renderer false) demo_program
              demo_overlapping fresh_surface eq_refl eq_refl eq_refl
              ltac:(discriminate) (demo_buffers_distinct false)
              demo_locations_distinct ltac:(reflexivity) ltac:(reflexivity))
    as (_ & new & _ & _ & _ & _ & H).
  exact H.
Defined.

Lemma instance_arrays_rebuilt_witness :
  demo_particles <> []
  /\ length (positions (extract demo_particles)) = 4%nat
  /\ length (sizes (extract demo_particles)) = 2%nat
  /\ length (colors (extract demo_particles)) = 8%nat.
Proof.
  split; [discriminate|].
  destruct (instance_arrays_rebuilt (demo_renderer true) demo_program
              demo_particles [] fresh_surface eq_refl eq_refl
              ltac:(discriminate) (demo_buffers_distinct true))
    as (H1 & H2 & H3 & _).
  split; [exact H1|]. split; [exact H2|exact H3].
Defined.

Lemma parseColor_hex_witness :
  Spec.is_hex_digit "8" = true
  /\ parseColor "#ff8000"
     = [ (of_Z 255 / of_Z 255)%js; (of_Z 128 / of_Z 255)%js;
         (of_Z 0 / of_Z 255)%js; of_Z 1 ].
Proof.
  split; [reflexivity|].
  destruct (parseColor_hex "f" "f" "8" "0" "0" "0"
              eq_refl eq_refl eq_refl eq_refl eq_refl eq_refl) as (_ & H & _).
  exact H.
Defined.


Lemma parseColor_default_black_witness :
  startsWith "purple" "#" = false
  /\ startsWith "purple" "hsl" = false
  /\ parseColor "purple" = Spec.black.
Proof.
  split; [reflexivity|]. split; [reflexivity|].
  destruct (parseColor_default_black "purple" eq_refl (or_introl eq_refl))
    as (H & _).
  exact H.
Defined.

Lemma instanced_divisors_reset_witness :
  instancedArraysExt (demo_renderer true) = true
  /\ divisor (gl_run fresh_surface
                (fst (drawParticles (demo_renderer true) (Some demo_particles))))
       1 = 0.
Proof.
  split; [reflexivity|].
  destruct (instanced_divisors_reset (demo_renderer true) demo_program
              demo_particles fresh_surface eq_refl eq_refl eq_refl
              ltac:(discriminate)) as (_ & _ & H & _).
  exact H.
Defined.


Lemma paths_share_snapshot_witness :
  demo_particles !! 1%nat
  = Some {| x := of_Z 20; y := of_Z 20; size := of_Z 5; color := "#ffffff" |}
  /\ uploads (fst (drawParticles (demo_renderer true) (Some demo_particles)))
     = [ positions (extract demo_particles); sizes (extract demo_particles);
         colors (extract demo_particles) ].
Proof.
  split; [reflexivity|].
  destruct (paths_share_snapshot (demo_renderer true) (demo_renderer false)
              demo_program demo_program demo_particles 1
              {| x := of_Z 20; y := of_Z 20; size := of_Z 5; color := "#ffffff" |}
              eq_refl eq_refl eq_refl eq_refl eq_refl eq_refl eq_refl)
    as (H & _).
  exact H.
Defined.

(* ------------------------------------------------------------------ *)
(** * More on parseColor *)
(* ------------------------------------------------------------------ *)

(** X1. Whatever the string, the result has exactly four components and
    the fourth, alpha, is 1, also when a channel is NaN. *)
Theorem parseColor_opaque (c : string) :
  exists r g b, parseColor c = [r; g; b; of_Z 1].
Proof.
  unfold parseColor.
  destruct (if startsWith c "hsl" then exec hsl_pattern 3 c else None) as [m|].
  - unfold hsl_to_rgba. destruct (strict_eq _ _); eauto.
  - destruct (startsWith c "#"); unfold hex_to_rgba; eauto.
Qed.

(** X2. In the hex branch only the six characters after [#] are read:
    anything after them, such as the alpha pair of [#RRGGBBAA], is
    ignored. *)
Theorem parseColor_hex_ignores_tail (c1 c2 c3 c4 c5 c6 : ascii) (tail : string) :
  parseColor (String "#" (String c1 (String c2 (String c3 (String c4
                (String c5 (String c6 tail)))))))
  = parseColor (String "#" (String c1 (String c2 (String c3 (String c4
                  (String c5 (String c6 "")))))))
  /\ parseColor "#ff0000ff" = [of_Z 1; of_Z 0; of_Z 0; of_Z 1].
Proof.
  split; [|vm_compute; reflexivity].
  unfold parseColor.
  change (startsWith (String "#" _) "hsl") with false.
  change (startsWith (String "#" _) "#") with true.
  cbv iota. unfold hex_to_rgba, slice.
  cbn [Nat.sub substring]. destruct tail; reflexivity.
Qed.

Lemma substring_past_end (s : string) (n m : nat) :
  (String.length s <= n)%nat -> substring n m s = ""%string.
Proof.
  revert n. induction s as [|c s IH]; intros n H.
  - destruct n, m; reflexivity.
  - destruct n as [|n]; [cbn in H; lia|].
    cbn [substring]. apply IH. cbn in H. lia.
Qed.

(** X3. A hex colour with fewer than five characters after [#], the CSS
    shorthand [#abc] included, has no blue pair: its blue channel is NaN,
    and with fewer than three characters so is its green channel. *)
Theorem parseColor_short_hex (s : string) :
  (String.length s <= 4)%nat ->
  (exists r g, parseColor (String "#" s) = [r; g; NaN; of_Z 1])
  /\ ((String.length s <= 2)%nat ->
      exists r, parseColor (String "#" s) = [r; NaN; NaN; of_Z 1]).
Proof.
  intros H. unfold parseColor.
  change (startsWith (String "#" s) "hsl") with false.
  assert (Hh : startsWith (String "#" s) "#" = true) by (destruct s; reflexivity).
  rewrite Hh. unfold hex_to_rgba, slice.
  rewrite (substring_past_end (String "#" s) 5) by (cbn [String.length]; lia).
  split.
  - eexists _, _. reflexivity.
  - intros H2.
    rewrite (substring_past_end (String "#" s) 3) by (cbn [String.length]; lia).
    eexists. reflexivity.
Qed.

Lemma append_assoc (s1 s2 s3 : string) :
  ((s1 ++ s2) ++ s3)%string = (s1 ++ (s2 ++ s3))%string.
Proof.
  induction s1 as [|c s1 IH]; [reflexivity|].
  rewrite !append_cons, IH. reflexivity.
Qed.

Lemma match_here_hsl_tail (H w1 w2 S w3 w4 L tail : string) :
  Spec.hsl_parts H w1 w2 S w3 w4 L = true ->
  match_here hsl_pattern 3 (Spec.hsl_text H w1 w2 S w3 w4 L ++ tail)%string
  = Some [Some (Spec.hsl_text H w1 w2 S w3 w4 L); Some H; Some S; Some L].
Proof.
  intros Hparts.
  destruct (hsl_parts_inv _ _ _ _ _ _ _ Hparts)
    as ((HH1 & HH2) & (HS1 & HS2) & (HL1 & HL2) & Hw1 & Hw2 & Hw3 & Hw4).
  unfold match_here.
  set (whole := (Spec.hsl_text H w1 w2 S w3 w4 L ++ tail)%string).
  set (k := fun (s' : string) (caps : captures) =>
              Some (<[0%nat := Some (consumed whole s')]> caps)).
  assert (Hk : k tail [None; Some H; Some S; Some L]
               = Some [Some (Spec.hsl_text H w1 w2 S w3 w4 L);
                       Some H; Some S; Some L]).
  { subst k whole. cbv beta. rewrite consumed_app. reflexivity. }
  clearbody k. subst whole. unfold hsl_pattern. cbn [Lit].
  unfold Spec.hsl_text at 1.
  rewrite !append_assoc, !append_cons, !append_nil.
  repeat rx_step.
  apply rx_group_plus_cls; try assumption.
  { apply stops_spaces_then; [assumption|apply space_not_digit_or_dot|reflexivity]. }
  repeat rx_step.
  apply rx_star_cls; [assumption|reflexivity|].
  repeat rx_step.
  apply rx_star_cls; [assumption|apply stops_digits_then; assumption|].
  repeat rx_step.
  apply rx_group_plus_cls; [assumption|assumption|reflexivity|].
  repeat rx_step.
  apply rx_star_cls; [assumption|reflexivity|].
  repeat rx_step.
  apply rx_star_cls; [assumption|apply stops_digits_then; assumption|].
  repeat rx_step.
  apply rx_group_plus_cls; [assumption|assumption|reflexivity|].
  repeat rx_step.
  exact Hk.
Qed.

(** X4. The hsl pattern is not anchored at the end: whatever follows the
    closing parenthesis of a well-formed [hsl(H, S%, L%)] is ignored. *)
Theorem parseColor_hsl_ignores_tail (H w1 w2 S w3 w4 L tail : string) :
  Spec.hsl_parts H w1 w2 S w3 w4 L = true ->
  parseColor (Spec.hsl_text H w1 w2 S w3 w4 L ++ tail)%string
  = parseColor (Spec.hsl_text H w1 w2 S w3 w4 L).
Proof.
  intros Hparts. unfold parseColor.
  assert (Hs : forall t, startsWith (Spec.hsl_text H w1 w2 S w3 w4 L ++ t)%string
                           "hsl" = true).
  { intros t. unfold Spec.hsl_text. rewrite !append_assoc, !append_cons.
    reflexivity. }
  assert (Hs0 : startsWith (Spec.hsl_text H w1 w2 S w3 w4 L) "hsl" = true).
  { unfold Spec.hsl_text. rewrite !append_cons. reflexivity. }
  assert (E : exec hsl_pattern 3 (Spec.hsl_text H w1 w2 S w3 w4 L ++ tail)%string
              = Some [Some (Spec.hsl_text H w1 w2 S w3 w4 L);
                      Some H; Some S; Some L]).
  { pose proof (match_here_hsl_tail H w1 w2 S w3 w4 L tail Hparts) as M.
    destruct (Spec.hsl_text H w1 w2 S w3 w4 L ++ tail)%string;
      cbn [exec]; rewrite M; reflexivity. }
  rewrite (Hs tail), Hs0, E, (exec_hsl _ _ _ _ _ _ _ Hparts). reflexivity.
Qed.

(* ------------------------------------------------------------------ *)
(** * More on drawParticles *)
(* ------------------------------------------------------------------ *)

Lemma length_flat_map_const {A B} (f : A -> list B) (l : list A) (n : nat) :
  (forall a, length (f a) = n) -> length (flat_map f l) = (n * length l)%nat.
Proof.
  intros H. induction l as [|a l IH]; [simpl; lia|].
  cbn [flat_map]. rewrite length_app, H, IH. cbn [length]. lia.
Qed.

(** X6. The cost of a call in WebGL commands: the instanced path issues
    28 commands and 3 uploads whatever the number of particles; the
    fallback path issues 21 + 7N commands and 3 + 3N uploads. *)
Theorem drawParticles_cost (r : Renderer) (pi : ProgramInfo) (ps : list Particle) :
  gl r = true -> programInfo r = Some pi -> ps <> [] ->
  let log := fst (drawParticles r (Some ps)) in
  length log = (if instancedArraysExt r then 28 else 21 + 7 * length ps)%nat
  /\ length (uploads log)
     = (if instancedArraysExt r then 3 else 3 + 3 * length ps)%nat.
Proof.
  intros Hgl Hpi Hne log. subst log.
  rewrite (drawParticles_log r pi ps Hgl Hpi Hne). cbn [fst].
  rewrite !uploads_app, uploads_setup, uploads_cleanup, !length_app.
  destruct (instancedArraysExt r).
  - split; reflexivity.
  - rewrite uploads_particles.
    rewrite (length_flat_map_const (draw_particle r) ps 7) by reflexivity.
    rewrite (length_flat_map_const _ ps 3) by reflexivity.
    cbn [setup cleanup length]. split; lia.
Qed.

(** X7. The instance arrays are built particle by particle: the arrays of
    a concatenated list are the concatenated arrays, so a particle's
    entries do not depend on the particles around it. *)
Theorem extract_app (ps1 ps2 : list Particle) :
  positions (extract (ps1 ++ ps2))
  = positions (extract ps1) ++ positions (extract ps2)
  /\ sizes (extract (ps1 ++ ps2)) = sizes (extract ps1) ++ sizes (extract ps2)
  /\ colors (extract (ps1 ++ ps2))
     = colors (extract ps1) ++ colors (extract ps2).
Proof.
  rewrite !extract_spec. cbn [positions sizes colors].
  unfold xy_of, sizes_of, rgba_of. rewrite !flat_map_app, map_app.
  repeat split.
Qed.

Lemma gl_bind_all_app (b : GLBindings) (l1 l2 : list GLCommand) :
  gl_bind_all b (l1 ++ l2) = gl_bind_all (gl_bind_all b l1) l2.
Proof. apply fold_left_app. Qed.

Lemma bindings_gl_run (st : GLState) (log : list GLCommand) :
  bindings (gl_run st log) = gl_bind_all (bindings st) log.
Proof.
  revert st. induction log as [|c log IH]; intros st; [reflexivity|].
  cbn [gl_run gl_bind_all fold_left]. apply IH.
Qed.

(** What the per-particle blocks leave of the bindings they start from:
    everything but the array-buffer binding and the three instance
    buffers. *)
Lemma particles_keep (r : Renderer) (ps : list Particle) (b : GLBindings) :
  NoDup [circleBuffer r; instancePositionBuffer r; instanceSizeBuffer r;
         instanceColorBuffer r] ->
  current_program (gl_bind_all b (flat_map (draw_particle r) ps))
  = current_program b
  /\ uniform2 (gl_bind_all b (flat_map (draw_particle r) ps)) = uniform2 b
  /\ attrib_enabled (gl_bind_all b (flat_map (draw_particle r) ps))
     = attrib_enabled b
  /\ attrib_pointer (gl_bind_all b (flat_map (draw_particle r) ps))
     = attrib_pointer b
  /\ attrib_divisor (gl_bind_all b (flat_map (draw_particle r) ps))
     = attrib_divisor b
  /\ stored (gl_bind_all b (flat_map (draw_particle r) ps)) (circleBuffer r)
     = stored b (circleBuffer r).
Proof.
  intros ND. destruct (NoDup4_inv _ _ _ _ ND) as (? & ? & ? & _).
  revert b. induction ps as [|p ps IH]; intros b; [cbn; tauto|].
  cbn [flat_map]. rewrite gl_bind_all_app.
  destruct (IH (gl_bind_all b (draw_particle r p)))
    as (E1 & E2 & E3 & E4 & E5 & E6).
  rewrite E1, E2, E3, E4, E5, E6.
  unfold stored.
  cbn [draw_particle gl_bind_all fold_left gl_bind buffer_store
       array_buffer_binding current_program uniform2 attrib_enabled
       attrib_pointer attrib_divisor].
  rewrite !lookup_insert_ne by congruence. tauto.
Qed.

(** X8. What a call leaves on the surface, on either path: the program in
    use, the resolution uniform set to the canvas size, the four
    attribute arrays disabled, and the template buffer as it was. *)
Theorem drawParticles_leaves (r : Renderer) (pi : ProgramInfo)
    (ps : list Particle) (st : GLState) :
  gl r = true -> programInfo r = Some pi -> ps <> [] ->
  NoDup [circleBuffer r; instancePositionBuffer r; instanceSizeBuffer r;
         instanceColorBuffer r] ->
  let loc := attribLocations pi in
  let b := bindings (gl_run st (fst (drawParticles r (Some ps)))) in
  current_program b = Some (program pi)
  /\ uniform2 b !! resolution pi = Some (width (canvas r), height (canvas r))
  /\ attrib_enabled b !! vertexPosition loc = Some false
  /\ attrib_enabled b !! instancePosition loc = Some false
  /\ attrib_enabled b !! instanceSize loc = Some false
  /\ attrib_enabled b !! instanceColor loc = Some false
  /\ stored b (circleBuffer r) = stored (bindings st) (circleBuffer r).
Proof.
  intros Hgl Hpi Hne ND loc b. subst b loc.
  destruct (NoDup4_inv _ _ _ _ ND) as (? & ? & ? & _).
  rewrite (drawParticles_log r pi ps Hgl Hpi Hne). cbn [fst].
  rewrite bindings_gl_run, !gl_bind_all_app.
  set (b1 := gl_bind_all (bindings st) (setup r pi (extract ps))).
  assert (S1 : current_program b1 = Some (program pi)
               /\ uniform2 b1 !! resolution pi
                  = Some (width (canvas r), height (canvas r))
               /\ stored b1 (circleBuffer r)
                  = stored (bindings st) (circleBuffer r)).
  { subst b1. unfold stored.
    cbn [setup gl_bind_all fold_left gl_bind buffer_store array_buffer_binding
         current_program uniform2].
    split; [reflexivity|]. split; [apply lookup_insert_eq|].
    rewrite !lookup_insert_ne by congruence. reflexivity. }
  destruct S1 as (P1 & U1 & C1). clearbody b1.
  set (b2 := gl_bind_all b1 (if instancedArraysExt r
                             then draw_instanced r pi (length ps)
                             else flat_map (draw_particle r) ps)).
  assert (S2 : current_program b2 = current_program b1
               /\ uniform2 b2 = uniform2 b1
               /\ stored b2 (circleBuffer r) = stored b1 (circleBuffer r)).
  { subst b2. destruct (instancedArraysExt r).
    - repeat split.
    - destruct (particles_keep r ps b1 ND) as (E1 & E2 & _ & _ & _ & E6).
      repeat split; assumption. }
  destruct S2 as (P2 & U2 & C2). clearbody b2.
  unfold stored in *.
  cbn [cleanup gl_bind_all fold_left gl_bind buffer_store current_program
       uniform2 attrib_enabled].
  rewrite P2, P1, U2, U1, C2, C1.
  repeat split; apply lookup_insert4; tauto.
Qed.

(** X9. What the one instanced draw is executed with: the three whole
    instance arrays in their buffers, each attribute reading its own
    buffer with 2, 2, 1 and 4 components, all four arrays enabled, the
    template advancing per vertex as before and the three instance
    attributes once per instance. Attribute locations and buffers are
    taken to be distinct. *)
Theorem instanced_draw_sees (r : Renderer) (pi : ProgramInfo)
    (ps : list Particle) (st : GLState) :
  gl r = true -> programInfo r = Some pi -> instancedArraysExt r = true ->
  ps <> [] ->
  NoDup [circleBuffer r; instancePositionBuffer r; instanceSizeBuffer r;
         instanceColorBuffer r] ->
  NoDup [vertexPosition (attribLocations pi);
         instancePosition (attribLocations pi);
         instanceSize (attribLocations pi);
         instanceColor (attribLocations pi)] ->
  let loc := attribLocations pi in
  exists b,
    drawn (gl_run st (fst (drawParticles r (Some ps))))
    = drawn st ++ [(drawArraysInstancedANGLE TRIANGLE_FAN 0 (circleVertexCount r)
                      (Z.of_nat (length ps)), b)]
    /\ stored b (instancePositionBuffer r) = Some (xy_of ps)
    /\ stored b (instanceSizeBuffer r) = Some (sizes_of ps)
    /\ stored b (instanceColorBuffer r) = Some (rgba_of ps)
    /\ stored b (circleBuffer r) = stored (bindings st) (circleBuffer r)
    /\ attrib_pointer b !! vertexPosition loc = Some (Some (circleBuffer r), 2)
    /\ attrib_pointer b !! instancePosition loc
       = Some (Some (instancePositionBuffer r), 2)
    /\ attrib_pointer b !! instanceSize loc
       = Some (Some (instanceSizeBuffer r), 1)
    /\ attrib_pointer b !! instanceColor loc
       = Some (Some (instanceColorBuffer r), 4)
    /\ attrib_enabled b !! vertexPosition loc = Some true
    /\ attrib_enabled b !! instancePosition loc = Some true
    /\ attrib_enabled b !! instanceSize loc = Some true
    /\ attrib_enabled b !! instanceColor loc = Some true
    /\ attrib_divisor b !! vertexPosition loc
       = attrib_divisor (bindings st) !! vertexPosition loc
    /\ attrib_divisor b !! instancePosition loc = Some 1
    /\ attrib_divisor b !! instanceSize loc = Some 1
    /\ attrib_divisor b !! instanceColor loc = Some 1.
Proof.
  intros Hgl Hpi Hext Hne NDb NDl loc. subst loc.
  destruct (NoDup4_inv _ _ _ _ NDb) as (? & ? & ? & ? & ? & ?).
  destruct (NoDup4_inv _ _ _ _ NDl) as (? & ? & ? & ? & ? & ?).
  rewrite (drawParticles_log r pi ps Hgl Hpi Hne), Hext. cbn [fst].
  rewrite extract_spec.
  eexists. split; [reflexivity|].
  unfold stored.
  cbn [setup gl_run fold_left gl_step gl_bind bindings buffer_store
       array_buffer_binding attrib_pointer attrib_enabled attrib_divisor
       positions sizes colors is_draw app].
  repeat split;
    repeat first [ apply lookup_insert_eq
                 | rewrite lookup_insert_ne by congruence ];
    reflexivity.
Qed.

Lemma flat_map_last {A B} (f : A -> list B) (l : list A) (a : A) :
  flat_map f (l ++ [a]) = flat_map f l ++ f a.
Proof. rewrite flat_map_app. cbn. rewrite app_nil_r. reflexivity. Qed.

(** X10. After a fallback call the three instance buffers hold the slice
    of the last particle only: the whole arrays uploaded during set-up
    have been overwritten. *)
Theorem fallback_leaves_last (r : Renderer) (pi : ProgramInfo)
    (ps : list Particle) (p : Particle) (st : GLState) :
  gl r = true -> programInfo r = Some pi -> instancedArraysExt r = false ->
  NoDup [circleBuffer r; instancePositionBuffer r; instanceSizeBuffer r;
         instanceColorBuffer r] ->
  let b := bindings (gl_run st (fst (drawParticles r (Some (ps ++ [p]))))) in
  stored b (instancePositionBuffer r) = Some (xy_of [p])
  /\ stored b (instanceSizeBuffer r) = Some (sizes_of [p])
  /\ stored b (instanceColorBuffer r) = Some (rgba_of [p])
  /\ array_buffer_binding b = Some (instanceColorBuffer r).
Proof.
  intros Hgl Hpi Hext ND b. subst b.
  destruct (NoDup4_inv _ _ _ _ ND) as (? & ? & ? & ? & ? & ?).
  assert (Hne : ps ++ [p] <> []) by (destruct ps; discriminate).
  rewrite (drawParticles_log r pi _ Hgl Hpi Hne), Hext. cbn [fst].
  rewrite bindings_gl_run, flat_map_last, !gl_bind_all_app.
  generalize (gl_bind_all (gl_bind_all (bindings st)
                (setup r pi (extract (ps ++ [p]))))
                (flat_map (draw_particle r) ps)).
  intros b0. unfold stored.
  cbn [draw_particle cleanup gl_bind_all fold_left gl_bind buffer_store
       array_buffer_binding].
  repeat split;
    repeat first [ apply lookup_insert_eq
                 | rewrite lookup_insert_ne by congruence ];
    reflexivity.
Qed.

Lemma length_template (Math_cos Math_sin : number -> number) :
  length (Float32Array.of_array
            (Template.circle_vertices Math_cos Math_sin Template.segments))
  = 28%nat.
Proof.
  unfold Float32Array.of_array, Template.circle_vertices.
  rewrite length_map, circle_vertices_closed_form, length_app, length_ring.
  reflexivity.
Qed.

(** X16. On a surface where [initBuffers] has uploaded the template, the
    one instanced draw passes the range check of WebGL: the template
    attribute reads the 14 vertices of the 28 uploaded coordinates, and
    each instance attribute reads one element per particle from an array
    holding exactly one element per particle. The draw is rendered; this
    is the path that draws the particles. *)
Theorem instanced_draw_in_range (Math_cos Math_sin : number -> number)
    (r : Renderer) (pi : ProgramInfo) (ps : list Particle) (st : GLState) :
  gl r = true -> programInfo r = Some pi -> instancedArraysExt r = true ->
  ps <> [] ->
  NoDup [circleBuffer r; instancePositionBuffer r; instanceSizeBuffer r;
         instanceColorBuffer r] ->
  NoDup (attributes pi) ->
  circleVertexCount r = Z.of_nat Template.circleVertexCount ->
  divisor st (vertexPosition (attribLocations pi)) = 0 ->
  let ready := gl_run st (initBuffers Math_cos Math_sin r) in
  let log := fst (drawParticles r (Some ps)) in
  let draw := drawArraysInstancedANGLE TRIANGLE_FAN 0 (circleVertexCount r)
                (Z.of_nat (length ps)) in
  exists b,
    drawn (gl_run ready log) = drawn st ++ [(draw, b)]
    /\ Forall (fun i => attribute_in_range b draw i = true) (attributes pi)
    /\ rendered pi (gl_run ready log) = rendered pi st ++ [(draw, b)].
Proof.
  intros Hgl Hpi Hext Hne NDb NDl Hcount Hdiv ready log draw.
  subst ready log draw. unfold attributes in *.
  destruct (NoDup4_inv _ _ _ _ NDb) as (? & ? & ? & ? & ? & ?).
  destruct (NoDup4_inv _ _ _ _ NDl) as (? & ? & ? & ? & ? & ?).
  rewrite (drawParticles_log r pi ps Hgl Hpi Hne), Hext. cbn [fst].
  rewrite extract_spec.
  set (b := bindings (gl_run (gl_run (gl_run st (initBuffers Math_cos Math_sin r))
                                (setup r pi {| positions := xy_of ps;
                                               sizes := sizes_of ps;
                                               colors := rgba_of ps |}))
                        [ vertexAttribDivisorANGLE (instancePosition (attribLocations pi)) 1;
                          vertexAttribDivisorANGLE (instanceSize (attribLocations pi)) 1;
                          vertexAttribDivisorANGLE (instanceColor (attribLocations pi)) 1 ])).
  assert (Hin : Forall (fun i => attribute_in_range b
                   (drawArraysInstancedANGLE TRIANGLE_FAN 0 (circleVertexCount r)
                      (Z.of_nat (length ps))) i = true)
                  [vertexPosition (attribLocations pi);
                   instancePosition (attribLocations pi);
                   instanceSize (attribLocations pi);
                   instanceColor (attribLocations pi)]).
  { unfold divisor in Hdiv. subst b.
    repeat apply Forall_cons_2; [| | | |apply Forall_nil_2];
      unfold attribute_in_range;
      cbn [initBuffers setup gl_run fold_left gl_step gl_bind bindings buffer_store
           array_buffer_binding attrib_pointer attrib_enabled attrib_divisor
           positions sizes colors is_draw];
      repeat first [ rewrite lookup_insert_eq
                   | rewrite lookup_insert_ne by congruence ];
      cbn [elements_read default from_option id Datatypes.id Z.eqb].
    - rewrite Hdiv. cbn [Z.eqb]. rewrite length_template, Hcount.
      reflexivity.
    - rewrite length_xy_of. apply Z.leb_le. rewrite Z.div_1_r. lia.
    - rewrite length_sizes_of. apply Z.leb_le. rewrite Z.div_1_r. lia.
    - rewrite length_rgba_of. apply Z.leb_le. rewrite Z.div_1_r. lia. }
  assert (Hd : drawn (gl_run (gl_run st (initBuffers Math_cos Math_sin r))
                        (setup r pi {| positions := xy_of ps; sizes := sizes_of ps;
                                       colors := rgba_of ps |}
                         ++ draw_instanced r pi (length ps) ++ cleanup pi))
               = drawn st ++ [(drawArraysInstancedANGLE TRIANGLE_FAN 0
                                 (circleVertexCount r) (Z.of_nat (length ps)), b)])
    by reflexivity.
  exists b. split; [exact Hd|]. split; [exact Hin|].
  unfold rendered. rewrite Hd, List.filter_app. cbn [List.filter].
  replace (draw_in_range pi _) with true; [reflexivity|].
  symmetry. unfold draw_in_range, attributes. apply forallb_forall.
  intros i Hi. rewrite Forall_forall in Hin. apply Hin.
  apply list_elem_of_In. exact Hi.
Qed.

(* ------------------------------------------------------------------ *)
(** * Particle.update and the update loop *)
(* ------------------------------------------------------------------ *)

Lemma binary_round_aux_scaled (prec emax : Z) (s : bool) (m d : positive) (e : Z) :
  SpecFloat.bounded prec emax m e = true ->
  binary_round_aux prec emax s (Z.pos (Pos.iter xO m d)) (e - Z.pos d) loc_Exact
  = S754_finite s m e.
Proof.
  intros H. destruct (bounded_inv prec emax m e H) as [F L].
  unfold binary_round_aux, shr_fexp. rewrite Zdigits2_shl.
  replace (Zdigits2 (Z.pos m) + Z.pos d + (e - Z.pos d))
    with (Zdigits2 (Z.pos m) + e) by lia.
  rewrite F. replace (e - (e - Z.pos d)) with (Z.pos d) by lia.
  cbn [shr shr_record_of_loc]. rewrite shr_shl_exact.
  cbn [shr_m loc_of_shr_record round_nearest_even].
  replace (e - Z.pos d + Z.pos d) with e by lia.
  rewrite F, Z.sub_diag. cbn [shr shr_record_of_loc shr_m].
  apply Z.leb_le in L. rewrite L. reflexivity.
Qed.

(** Multiplying a Number by [-1] negates it exactly. *)
Lemma mul_minus_one (v : number) :
  SpecFloat.valid_binary prec64 emax64 v = true ->
  (v * neg (of_Z 1))%js = neg v.
Proof.
  destruct v as [s|s| |s m e]; intros Hv.
  - cbn. destruct s; reflexivity.
  - cbn. destruct s; reflexivity.
  - reflexivity.
  - cbn [SpecFloat.valid_binary] in Hv.
    change (neg (of_Z 1)) with (S754_finite true 4503599627370496 (-52)).
    unfold mul. cbn [SFmul neg SFopp].
    replace (m * 4503599627370496)%positive with (Pos.iter xO m 52)
      by (rewrite Pos.mul_comm; reflexivity).
    replace (xorb s true) with (negb s) by (destruct s; reflexivity).
    apply (binary_round_aux_scaled prec64 emax64 (negb s) m 52 e Hv).
Qed.

(** X11. One step of a particle: it moves by its velocity, keeps its size,
    colour and canvas, and each velocity component is either kept, when
    the new coordinate is inside the canvas (or NaN), or exactly negated,
    when it is outside; its magnitude never changes. *)
Theorem Particle_update_step (p : MovingParticle) :
  SpecFloat.valid_binary prec64 emax64 (speedX p) = true ->
  SpecFloat.valid_binary prec64 emax64 (speedY p) = true ->
  let q := Particle_update p in
  let outside (v limit : number) := (v < of_Z 0)%js || (v > limit)%js in
  x (shown q) = (x (shown p) + speedX p)%js
  /\ y (shown q) = (y (shown p) + speedY p)%js
  /\ size (shown q) = size (shown p)
  /\ color (shown q) = color (shown p)
  /\ bounds q = bounds p
  /\ speedX q = (if outside (x (shown q)) (width (bounds p))
                 then neg (speedX p) else speedX p)
  /\ speedY q = (if outside (y (shown q)) (height (bounds p))
                 then neg (speedY p) else speedY p)
  /\ SFabs (speedX q) = SFabs (speedX p)
  /\ SFabs (speedY q) = SFabs (speedY p).
Proof.
  intros Hx Hy q outside. subst q outside. unfold Particle_update.
  cbn [shown x y size color bounds speedX speedY].
  rewrite (mul_minus_one _ Hx), (mul_minus_one _ Hy).
  repeat split.
  - destruct (_ || _); [|reflexivity]. destruct (speedX p); reflexivity.
  - destruct (_ || _); [|reflexivity]. destruct (speedY p); reflexivity.
Qed.

Lemma neg_valid (v : number) :
  SpecFloat.valid_binary prec64 emax64 (neg v)
  = SpecFloat.valid_binary prec64 emax64 v.
Proof. destruct v; reflexivity. Qed.

Lemma neg_neg (v : number) : neg (neg v) = v.
Proof. destruct v as [[]|[]| |[] m e]; reflexivity. Qed.

(** X12. The bounce does not bring a particle back: when a particle is
    beyond the left edge after a step and still beyond it after the next
    one, its horizontal velocity is reversed twice and is again what it
    was, so it keeps oscillating outside the canvas. *)
Theorem Particle_update_outside_oscillates (p : MovingParticle) :
  SpecFloat.valid_binary prec64 emax64 (speedX p) = true ->
  let x1 := (x (shown p) + speedX p)%js in
  let x2 := (x1 + neg (speedX p))%js in
  (x1 < of_Z 0)%js = true -> (x2 < of_Z 0)%js = true ->
  speedX (Particle_update p) = neg (speedX p)
  /\ x (shown (Particle_update (Particle_update p))) = x2
  /\ speedX (Particle_update (Particle_update p)) = speedX p.
Proof.
  intros Hv x1 x2 H1 H2. subst x1 x2.
  assert (E1 : speedX (Particle_update p) = neg (speedX p)).
  { unfold Particle_update. cbn [speedX]. rewrite H1. cbn [orb].
    apply mul_minus_one, Hv. }
  assert (X1 : x (shown (Particle_update p)) = (x (shown p) + speedX p)%js)
    by reflexivity.
  split; [exact E1|].
  assert (X2 : x (shown (Particle_update (Particle_update p)))
               = (x (shown p) + speedX p + neg (speedX p))%js).
  { unfold Particle_update at 1. cbn [shown x]. rewrite X1, E1. reflexivity. }
  split; [exact X2|].
  unfold Particle_update at 1. cbn [speedX]. rewrite X1, E1, H2. cbn [orb].
  rewrite mul_minus_one by (rewrite neg_valid; exact Hv).
  apply neg_neg.
Qed.

(** X13. From frame to frame only the positions change: after
    [update()] the particle count, the sizes array and the colours array
    of the next [drawParticles] call are what they were. *)
Theorem update_keeps_sizes_and_colors (ps : list MovingParticle) :
  length (update_all ps) = length ps
  /\ sizes (extract (map shown (update_all ps))) = sizes (extract (map shown ps))
  /\ colors (extract (map shown (update_all ps)))
     = colors (extract (map shown ps))
  /\ length (positions (extract (map shown (update_all ps))))
     = length (positions (extract (map shown ps))).
Proof.
  unfold update_all. rewrite length_map, !extract_spec.
  cbn [positions sizes colors]. rewrite !length_xy_of, !length_map.
  unfold sizes_of, rgba_of.
  split; [reflexivity|]. split; [|split; [|reflexivity]].
  - rewrite !map_map. reflexivity.
  - induction ps as [|p ps IH]; [reflexivity|].
    cbn [map flat_map]. rewrite IH. reflexivity.
Qed.

(* ------------------------------------------------------------------ *)
(** * These theorems at concrete inputs *)
(* ------------------------------------------------------------------ *)

Lemma parseColor_short_hex_witness :
  (String.length "abc" <= 4)%nat
  /\ exists r g, parseColor "#abc" = [r; g; NaN; of_Z 1].
Proof.
  assert (H : (String.length "abc" <= 4)%nat) by (cbn; lia).
  split; [exact H|].
  exact (proj1 (parseColor_short_hex "abc" H)).
Defined.

Lemma parseColor_hsl_ignores_tail_witness :
  Spec.hsl_parts "0" "" "" "100" "" "" "50" = true
  /\ parseColor "hsl(0,100%,50%) none" = parseColor "hsl(0,100%,50%)".
Proof.
  split; [reflexivity|].
  exact (parseColor_hsl_ignores_tail "0" "" "" "100" "" "" "50" " none" eq_refl).
Defined.

Lemma drawParticles_cost_witness :
  demo_particles <> []
  /\ length (fst (drawParticles (demo_renderer false) (Some demo_particles)))
     = 35%nat.
Proof.
  split; [discriminate|].
  exact (proj1 (drawParticles_cost (demo_renderer false) demo_program
                  demo_particles eq_refl eq_refl ltac:(discriminate))).
Defined.

Lemma drawParticles_leaves_witness :
  gl (demo_renderer true) = true
  /\ current_program
       (bindings (gl_run fresh_surface
          (fst (drawParticles (demo_renderer true) (Some demo_particles)))))
     = Some 1%nat.
Proof.
  split; [reflexivity|].
  exact (proj1 (drawParticles_leaves (demo_renderer true) demo_program
                  demo_particles fresh_surface eq_refl eq_refl
                  ltac:(discriminate) (demo_buffers_distinct true))).
Defined.

Lemma instanced_draw_sees_witness :
  instancedArraysExt (demo_renderer true) = true
  /\ exists b,
       drawn (gl_run fresh_surface
                (fst (drawParticles (demo_renderer true) (Some demo_particles))))
       = [(drawArraysInstancedANGLE TRIANGLE_FAN 0 14 2, b)]
       /\ stored b 12%nat = Some (sizes_of demo_particles).
Proof.
  split; [reflexivity|].
  destruct (instanced_draw_sees (demo_renderer true) demo_program
              demo_particles fresh_surface eq_refl eq_refl eq_refl
              ltac:(discriminate) (demo_buffers_distinct true)
              demo_locations_distinct) as (b & H1 & _ & H2 & _).
  exists b. split; [exact H1|exact H2].
Defined.

Lemma fallback_leaves_last_witness :
  instancedArraysExt (demo_renderer false) = false
  /\ stored (bindings (gl_run fresh_surface
               (fst (drawParticles (demo_renderer false) (Some demo_particles)))))
            11%nat
     = Some [Float32Array.Math_fround (of_Z 20); Float32Array.Math_fround (of_Z 20)].
Proof.
  split; [reflexivity|].
  exact (proj1 (fallback_leaves_last (demo_renderer false) demo_program
                  [ {| x := of_Z 10; y := of_Z 10; size := of_Z 5;
                       color := "#ffffff" |} ]
                  {| x := of_Z 20; y := of_Z 20; size := of_Z 5;
                     color := "#ffffff" |}
                  fresh_surface eq_refl eq_refl eq_refl
                  (demo_buffers_distinct false))).
Defined.

Lemma instanced_draw_in_range_witness :
  instancedArraysExt (demo_renderer true) = true
  /\ exists b,
       rendered demo_program
         (gl_run (gl_run fresh_surface
                    (initBuffers (fun v => v) (fun v => v) (demo_renderer true)))
            (fst (drawParticles (demo_renderer true) (Some demo_particles))))
       = [(drawArraysInstancedANGLE TRIANGLE_FAN 0 14 2, b)].
Proof.
  split; [reflexivity|].
  destruct (instanced_draw_in_range (fun v => v) (fun v => v)
              (demo_renderer true) demo_program demo_particles fresh_surface
              eq_refl eq_refl eq_refl ltac:(discriminate)
              (demo_buffers_distinct true) demo_locations_distinct
              eq_refl ltac:(reflexivity)) as (b & _ & _ & H).
  exists b. exact H.
Defined.

Lemma Particle_update_step_witness :
  SpecFloat.valid_binary prec64 emax64 (speedX demo_stray) = true
  /\ x (shown (Particle_update demo_stray)) = of_Z (-11)
  /\ speedX (Particle_update demo_stray) = of_Z 1.
Proof.
  split; [reflexivity|].
  destruct (Particle_update_step demo_stray eq_refl eq_refl)
    as (H1 & _ & _ & _ & _ & H2 & _).
  split; [exact H1|exact H2].
Defined.

Lemma Particle_update_outside_oscillates_witness :
  ((x (shown demo_stray) + speedX demo_stray) < of_Z 0)%js = true
  /\ speedX (Particle_update (Particle_update demo_stray)) = speedX demo_stray.
Proof.
  split; [reflexivity|].
  destruct (Particle_update_outside_oscillates demo_stray eq_refl eq_refl eq_refl)
    as (_ & _ & H).
  exact H.
Defined.
